(** * Image upload portal: URL builder, public-id extractor, upload clients
      and image registry

    A shallow embedding of the TypeScript sources

      - [services/cloudinary.ts]  ([uploadImageToCloudinary],
        [getOptimizedImageUrl], [extractPublicIdFromUrl]),
      - [services/firebase.ts]    ([uploadImageToFirebase]),
      - [app/(tabs)/index.tsx]    ([handleImageUpload], [removeImage]),
      - [contexts/ImageContext.tsx] of the technical guide ([addImage],
        [removeImage]),

    followed by the properties proved about them.

    Modelling conventions.  JavaScript strings are [string] (sequences of
    8-bit characters; the two line terminators U+2028 and U+2029 lie outside
    this range).  A JavaScript number is [Js.number]: NaN, a signed zero, a
    signed infinity, or a finite non-zero number given by the decimal digits
    and the exponent from which [Number.prototype.toString] prints it, so
    that fractions and the exponent form are printed as JavaScript prints
    them.  Clock readings and HTTP status codes are integers of at most
    sixteen digits, written as [Z].  Asynchronous calls are sequenced in a small monad that threads the log of
    network requests and may throw. *)

From Stdlib Require Import ZArith String Ascii List Bool Lia DecimalString Sorted.
From Stdlib Require DecimalZ DecimalPos.
Import ListNotations.
Open Scope list_scope.
Open Scope string_scope.

(** ** JavaScript values and string primitives *)

Module Js.

(** [String(n)] for an integer printed with all its digits, as the readings
    of [Date.now()] and the status codes of a response are. *)
Definition number_toString (n : Z) : string :=
  NilZero.string_of_int (Z.to_int n).

(** A Number, as [ToBoolean] and [Number.prototype.toString] see it.  A
    finite non-zero number is [s * 10^(n - k)], where [s] is the integer
    whose [k] decimal digits are the significant digits of the number: the
    [s], [k] and [n] from which Number::toString prints.  Every Number has
    such a form; a form whose [s] ends in a zero, or has more digits than a
    double determines, stands for no Number and only adds cases to what is
    proved for all numbers. *)
Inductive number :=
  | NaN
  | Zero (negative : bool)
  | Infinity (negative : bool)
  | Finite (negative : bool) (s : positive) (n : Z).

Definition digits (s : positive) : string :=
  NilEmpty.string_of_uint (Pos.to_uint s).

Fixpoint zeros (n : nat) : string :=
  match n with
  | O => ""
  | S n' => String "0" (zeros n')
  end.

(** Number::toString on a positive finite number, radix 10: plain digits
    up to 21 integer digits, a decimal point inside or in front of the
    digits down to 1e-6, the exponent form elsewhere. *)
Definition print_finite (s : positive) (n : Z) : string :=
  let d := digits s in
  let k := Z.of_nat (String.length d) in
  if (k <=? n)%Z && (n <=? 21)%Z then
    d ++ zeros (Z.to_nat (n - k))
  else if (0 <? n)%Z && (n <=? 21)%Z then
    substring 0 (Z.to_nat n) d ++ "." ++ substring (Z.to_nat n) (Z.to_nat (k - n)) d
  else if (-6 <? n)%Z && (n <=? 0)%Z then
    "0." ++ zeros (Z.to_nat (- n)) ++ d
  else
    let e := (n - 1)%Z in
    let mantissa :=
      match d with
      | String c "" => String c ""
      | String c rest => String c ("." ++ rest)
      | "" => ""
      end in
    mantissa ++ "e" ++ (if (e <? 0)%Z then "-" else "+") ++ number_toString (Z.abs e).

(** [Number.prototype.toString]: both zeros print as [0]. *)
Definition print_number (x : number) : string :=
  match x with
  | NaN => "NaN"
  | Zero _ => "0"
  | Infinity negative => (if negative then "-" else "") ++ "Infinity"
  | Finite negative s n => (if negative then "-" else "") ++ print_finite s n
  end.

(** The number of an integer [z] of magnitude at most 2^53, as a literal
    such as [400] denotes it: its significant digits are the digits of [z]
    without the zeros at the end, its exponent the number of digits of
    [z]. *)
Definition integer (z : Z) : number :=
  let of_pos negative p :=
    let d := Pos.to_uint p in
    match Pos.of_uint (fst (Decimal.nztail d)) with
    | Npos s => Finite negative s (Z.of_nat (Decimal.nb_digits d))
    | N0 => Zero negative
    end in
  match z with
  | Z0 => Zero false
  | Zpos p => of_pos false p
  | Zneg p => of_pos true p
  end.

(** The part of the value universe the sources use in conditions and
    template literals. *)
Inductive value :=
  | VUndefined
  | VNumber (n : number)
  | VString (s : string).

(** [ToBoolean]: [undefined], [0], [-0], [NaN] and [''] are falsy. *)
Definition truthy (v : value) : bool :=
  match v with
  | VUndefined => false
  | VNumber NaN | VNumber (Zero _) => false
  | VNumber _ => true
  | VString s => negb (s =? "")
  end.

(** [ToString], as applied by [`${v}`]. *)
Definition toString (v : value) : string :=
  match v with
  | VUndefined => "undefined"
  | VNumber n => print_number n
  | VString s => s
  end.

(** [a || b] and [a && b] return one of their operands. *)
Definition or (a b : value) : value := if truthy a then a else b.
Definition and (a b : value) : value := if truthy a then b else a.

(** [s.startsWith(p)]. *)
Definition startsWith (s p : string) : bool := prefix p s.

(** [s.includes(needle)]. *)
Fixpoint includes (s needle : string) : bool :=
  prefix needle s ||
  match s with
  | "" => false
  | String _ s' => includes s' needle
  end.

(** [s.split(sep)] for a one-character separator: never the empty array. *)
Fixpoint split (sep : ascii) (s : string) : list string :=
  match s with
  | "" => [""]
  | String c s' =>
      if Ascii.eqb c sep then "" :: split sep s'
      else match split sep s' with
           | [] => [String c ""]
           | x :: xs => String c x :: xs
           end
  end.

(** [a.pop()] read as an expression: the last element, [undefined] on the
    empty array. *)
Fixpoint pop (a : list string) : value :=
  match a with
  | [] => VUndefined
  | [x] => VString x
  | _ :: xs => pop xs
  end.

(** [a[0]]. *)
Definition first (a : list string) : value :=
  match a with
  | [] => VUndefined
  | x :: _ => VString x
  end.

(** The characters [0] to [9]. *)
Definition is_digit (c : ascii) : bool :=
  let n := nat_of_ascii c in (48 <=? n)%nat && (n <=? 57)%nat.

(** The characters of a printed integer: digits and the minus sign. *)
Definition numeric (c : ascii) : bool := is_digit c || Ascii.eqb c "-".

(** Any character but [sep]. *)
Definition not_char (sep c : ascii) : bool := negb (Ascii.eqb c sep).

(** Every character of [s] satisfies [p]. *)
Fixpoint every (p : ascii -> bool) (s : string) : bool :=
  match s with
  | "" => true
  | String c s' => p c && every p s'
  end.

(** [a.push(x)] and [a.join(sep)]. *)
Definition push (a : list string) (x : string) : list string := (a ++ [x])%list.
Definition join (sep : string) (a : list string) : string := String.concat sep a.

(** The falsy numbers: [0], [-0] and [NaN]. *)
Definition zero_or_NaN (x : number) : Prop :=
  x = NaN \/ exists negative, x = Zero negative.

(** The characters of a printed Number: digits, the two signs, the decimal
    point, the exponent mark, and the letters of [NaN] and [Infinity]. *)
Definition number_char (c : ascii) : bool :=
  is_digit c || includes "-+.eNaInfity" (String c "").

(** The numbers printed without a decimal point, as the integers of at
    most 21 digits are. *)
Definition dotless (x : number) : bool := every (not_char ".") (print_number x).

End Js.

(** ** Regular expressions: the backtracking matcher behind [String.match] *)

Module Regex.
Import Js.

(** Single-character atoms. *)
Inductive cclass :=
  | Any                 (* .     : anything but a line terminator *)
  | Digit               (* \d *)
  | Lit (c : ascii)     (* c *)
  | NotLit (c : ascii). (* [^c] *)

Definition line_terminator (c : ascii) : bool :=
  Ascii.eqb c "010"%char || Ascii.eqb c "013"%char.

Definition is_digit (c : ascii) : bool :=
  let n := nat_of_ascii c in (48 <=? n)%nat && (n <=? 57)%nat.

Definition accepts (p : cclass) (c : ascii) : bool :=
  match p with
  | Any => negb (line_terminator c)
  | Digit => is_digit c
  | Lit d => Ascii.eqb c d
  | NotLit d => negb (Ascii.eqb c d)
  end.

(** Patterns; [Plus] and [Opt] are greedy, [Group] is capture group 1,
    [Eos] is [$] without the multiline flag. *)
Inductive regex :=
  | Chr (p : cclass)
  | Plus (p : cclass)
  | Seq (r1 r2 : regex)
  | Opt (r : regex)
  | Group (r : regex)
  | Eos.

(** A literal string as a sequence of literal characters followed by [r]. *)
Fixpoint lits (s : string) (r : regex) : regex :=
  match s with
  | "" => r
  | String c s' => Seq (Chr (Lit c)) (lits s' r)
  end.

(** [p+] at the head of [s]: take as many characters as possible, give
    back one at a time while the continuation fails. *)
Fixpoint plus {R} (p : cclass) (s : string) (k : string -> option R) : option R :=
  match s with
  | "" => None
  | String c s' =>
      if accepts p c then
        match plus p s' k with
        | Some r => Some r
        | None => k s'
        end
      else None
  end.

(** Match [r] at the head of [s]; [cap] is the current content of group 1
    and [k] the rest of the pattern. *)
Fixpoint run {R} (r : regex) (s : string) (cap : option string)
    (k : string -> option string -> option R) : option R :=
  match r with
  | Chr p =>
      match s with
      | String c s' => if accepts p c then k s' cap else None
      | "" => None
      end
  | Plus p => plus p s (fun s' => k s' cap)
  | Seq r1 r2 => run r1 s cap (fun s' cap' => run r2 s' cap' k)
  | Opt r' =>
      match run r' s cap k with
      | Some x => Some x
      | None => k s cap
      end
  | Group r' =>
      run r' s cap
        (fun s' _ => k s' (Some (substring 0 (String.length s - String.length s') s)))
  | Eos =>
      match s with
      | "" => k "" cap
      | String _ _ => None
      end
  end.

(** Patterns without a capture group. *)
Fixpoint group_free (r : regex) : bool :=
  match r with
  | Chr _ | Plus _ | Eos => true
  | Seq r1 r2 => group_free r1 && group_free r2
  | Opt r' => group_free r'
  | Group _ => false
  end.

(** What a pattern denotes: [matches r x rest] when [r] matches [x] and
    [rest] is what follows [x] up to the end of the input. *)
Inductive matches : regex -> string -> string -> Prop :=
  | matches_chr p c rest :
      accepts p c = true -> matches (Chr p) (String c "") rest
  | matches_plus p x rest :
      x <> "" -> every (accepts p) x = true -> matches (Plus p) x rest
  | matches_seq r1 r2 x1 x2 rest :
      matches r1 x1 (x2 ++ rest) -> matches r2 x2 rest ->
      matches (Seq r1 r2) (x1 ++ x2) rest
  | matches_opt_some r x rest :
      matches r x rest -> matches (Opt r) x rest
  | matches_opt_none r rest :
      matches (Opt r) "" rest
  | matches_group r x rest :
      matches r x rest -> matches (Group r) x rest
  | matches_eos :
      matches Eos "" "".

(** A match anchored at the head of [s]; the result is group 1. *)
Definition exec_at (r : regex) (s : string) : option (option string) :=
  run r s None (fun _ cap => Some cap).

(** [s.match(r)] without the global flag: the leftmost start position at
    which the pattern matches, [None] for [null]. *)
Fixpoint search (r : regex) (s : string) : option (option string) :=
  match exec_at r s with
  | Some cap => Some cap
  | None =>
      match s with
      | "" => None
      | String _ s' => search r s'
      end
  end.

End Regex.

(** ** services/cloudinary.ts: display URLs *)

Module Cloudinary.
Import Js.

Definition CLOUDINARY_CLOUD_NAME : string := "your-cloud-name".
Definition CLOUDINARY_UPLOAD_PRESET : string := "your-upload-preset".
Definition CLOUDINARY_API_URL : string :=
  "https://api.cloudinary.com/v1_1/" ++ CLOUDINARY_CLOUD_NAME ++ "/image/upload".

Inductive Quality := QAuto | QNumber (n : number).
Inductive Format := FAuto | FWebp | FJpg | FPng.
Inductive Crop := CFill | CFit | CScale | CCrop.

(** The options bag; [None] is an absent (undefined) property. *)
Record Options := {
  width : option number;
  height : option number;
  quality : option Quality;
  format : option Format;
  crop : option Crop
}.

Definition no_options : Options :=
  {| width := None; height := None; quality := None; format := None; crop := None |}.

(** The numbers among the options. *)
Definition numbers (options : Options) : list number :=
  (match width options with Some x => [x] | None => [] end
   ++ match height options with Some x => [x] | None => [] end
   ++ match quality options with Some (QNumber x) => [x] | _ => [] end)%list.

Definition number_value (n : option number) : value :=
  match n with
  | None => VUndefined
  | Some x => VNumber x
  end.

Definition quality_value (q : Quality) : value :=
  match q with
  | QAuto => VString "auto"
  | QNumber n => VNumber n
  end.

Definition format_value (f : Format) : value :=
  VString match f with
          | FAuto => "auto"
          | FWebp => "webp"
          | FJpg => "jpg"
          | FPng => "png"
          end.

Definition crop_value (c : Crop) : value :=
  VString match c with
          | CFill => "fill"
          | CFit => "fit"
          | CScale => "scale"
          | CCrop => "crop"
          end.

(** A destructuring default applies when the property is undefined. *)
Definition with_default {A} (d : A) (x : option A) : A :=
  match x with
  | None => d
  | Some a => a
  end.

(** The [dimensions] array of the first branch. *)
Definition dimensions (width height : value) : list string :=
  let dimensions := [] in
  let dimensions :=
    if truthy width then push dimensions ("w_" ++ toString width) else dimensions in
  let dimensions :=
    if truthy height then push dimensions ("h_" ++ toString height) else dimensions in
  dimensions.

(** The [transformations] array when the last push is done. *)
Definition transformations (options : Options) : list string :=
  let width := number_value (width options) in
  let height := number_value (height options) in
  let quality := quality_value (with_default QAuto (quality options)) in
  let format := format_value (with_default FAuto (format options)) in
  let crop := crop_value (with_default CFill (crop options)) in
  let transformations := [] in
  let transformations :=
    if truthy (or width height)
    then push transformations (join "," (dimensions width height))
    else transformations in
  let transformations :=
    if truthy (and crop (or width height))
    then push transformations ("c_" ++ toString crop)
    else transformations in
  let transformations :=
    if truthy quality
    then push transformations ("q_" ++ toString quality)
    else transformations in
  let transformations :=
    if truthy format
    then push transformations ("f_" ++ toString format)
    else transformations in
  transformations.

Definition transformationString (options : Options) : string :=
  let transformations := transformations options in
  if (0 <? List.length transformations)%nat
  then join "," transformations ++ "/"
  else "".

Definition getOptimizedImageUrl (publicId : string) (options : Options) : string :=
  "https://res.cloudinary.com/" ++ CLOUDINARY_CLOUD_NAME ++ "/image/upload/"
    ++ transformationString options ++ publicId.

(** The directives of the transformation component, as the backend reads
    them: the pieces between commas. *)
Definition directives (options : Options) : list string :=
  split "," (join "," (transformations options)).

(** The directive list as the specification words it: width, height, crop
    when a dimension is present, quality, format, each present when its
    value is truthy.  Compared with [directives] in [directives_ordered]. *)
Definition ordered_directives (options : Options) : list string :=
  let width := number_value (width options) in
  let height := number_value (height options) in
  let quality := quality_value (with_default QAuto (quality options)) in
  let format := format_value (with_default FAuto (format options)) in
  let crop := crop_value (with_default CFill (crop options)) in
  let w := if truthy width then ["w_" ++ toString width] else [] in
  let h := if truthy height then ["h_" ++ toString height] else [] in
  let c := if truthy width || truthy height then ["c_" ++ toString crop] else [] in
  let q := if truthy quality then ["q_" ++ toString quality] else [] in
  let f := ["f_" ++ toString format] in
  (w ++ h ++ c ++ q ++ f)%list.

(** The kind of a directive, by its key: [w_], [h_], [c_], [q_], [f_]. *)
Definition directive_rank (d : string) : option nat :=
  if prefix "w_" d then Some 0%nat
  else if prefix "h_" d then Some 1%nat
  else if prefix "c_" d then Some 2%nat
  else if prefix "q_" d then Some 3%nat
  else if prefix "f_" d then Some 4%nat
  else None.

(** [/\/upload\/(?:v\d+\/)?(.+)\.[^.]+$/] *)
Definition publicIdPattern : Regex.regex :=
  Regex.lits "/upload/"
    (Regex.Seq
       (Regex.Opt
          (Regex.Seq (Regex.Chr (Regex.Lit "v"))
             (Regex.Seq (Regex.Plus Regex.Digit) (Regex.Chr (Regex.Lit "/")))))
       (Regex.Seq (Regex.Group (Regex.Plus Regex.Any))
          (Regex.Seq (Regex.Chr (Regex.Lit "."))
             (Regex.Seq (Regex.Plus (Regex.NotLit ".")) Regex.Eos)))).

(** The fixed pattern in words: something, [/upload/], an optional version
    segment [v<digits>/], a non-empty body without line terminators, a dot
    and a non-empty extension without dots, up to the end of the string. *)
Definition version_segment (ver : string) : Prop :=
  ver = "" \/ exists ds, ds <> "" /\ every is_digit ds = true /\ ver = "v" ++ ds ++ "/".

Definition matches_pattern (url : string) : Prop :=
  exists pre ver body ext,
    url = pre ++ "/upload/" ++ ver ++ body ++ "." ++ ext
    /\ version_segment ver
    /\ body <> ""
    /\ every (Regex.accepts Regex.Any) body = true
    /\ ext <> ""
    /\ every (not_char ".") ext = true.

(** [matches ? matches[1] : ''].  Group 1 is not optional in the pattern,
    so a match always carries it and the middle case, [undefined], is never
    taken ([search_capture] below). *)
Definition extractPublicIdFromUrl (url : string) : string :=
  match Regex.search publicIdPattern url with
  | Some (Some id) => id
  | Some None => toString VUndefined
  | None => ""
  end.

End Cloudinary.

(** ** Asynchronous code: network log and exceptions *)

Module Async.

(** A thrown value: an [Error] object with its message and, for the errors
    of a storage SDK, the HTTP status it records; or something that is not
    an [Error]. *)
Inductive exn :=
  | Error (message : string) (http_status : option Z)
  | NonError.

Inductive Result (A : Type) :=
| Ok (a : A)
| Throw (e : exn).
Arguments Ok {A} a.
Arguments Throw {A} e.

Inductive Blob := MkBlob (content : string).

(** Entries of a multipart form: a string field, a blob with a file name,
    or the React Native file descriptor [{uri, type, name}]. *)
Inductive FormValue :=
  | FormString (s : string)
  | FormBlob (b : Blob) (filename : string)
  | FormFile (uri type name : string).

Definition FormData := list (string * FormValue).

Definition append (f : FormData) (name : string) (v : FormValue) : FormData :=
  (f ++ [(name, v)])%list.

(** [formData.getAll(name)]. *)
Definition getAll (f : FormData) (name : string) : list FormValue :=
  map snd (filter (fun e => fst e =? name) f).

Record Request := {
  url : string;
  method : string;
  body : option FormData;
  headers : list (string * string)
}.

(** [fetch(uri)] with no init object. *)
Definition GET (uri : string) : Request :=
  {| url := uri; method := "GET"; body := None; headers := [] |}.

Record CloudinaryResponse := {
  secure_url : string;
  public_id : string;
  cr_format : string;
  bytes : Z;
  cr_width : Z;
  cr_height : Z;
  created_at : string
}.

(** What the code reads from a fetch response.  Reading the body can fail
    on its own. *)
Record Response := {
  status : Z;
  statusText : string;
  text : Result string;
  blob : Result Blob;
  json : Result CloudinaryResponse
}.

(** [response.ok]: the status is in the range 200-299. *)
Definition ok (r : Response) : bool :=
  (200 <=? status r)%Z && (status r <=? 299)%Z.

(** A computation: it extends the log of requests sent so far and returns
    or throws. *)
Definition M (A : Type) : Type := list Request -> Result A * list Request.

Definition ret {A} (a : A) : M A := fun log => (Ok a, log).

Definition throw {A} (e : exn) : M A := fun log => (Throw e, log).

Definition bind {A B} (m : M A) (f : A -> M B) : M B :=
  fun log =>
    match m log with
    | (Ok a, log') => f a log'
    | (Throw e, log') => (Throw e, log')
    end.

(** [try { m } catch (error) { h error }] *)
Definition try_catch {A} (m : M A) (h : exn -> M A) : M A :=
  fun log =>
    match m log with
    | (Ok a, log') => (Ok a, log')
    | (Throw e, log') => h e log'
    end.

(** [await] of an operation whose outcome is already determined. *)
Definition await {A} (r : Result A) : M A := fun log => (r, log).

(** [error instanceof Error ? error.message : 'Unknown error'] *)
Definition message_or_unknown (error : exn) : string :=
  match error with
  | Error message _ => message
  | NonError => "Unknown error"
  end.

Definition result_of {A} (m : M A) : Result A := fst (m []).
Definition requests_of {A} (m : M A) : list Request := snd (m []).

End Async.

Declare Scope async_scope.
Delimit Scope async_scope with async.
Notation "x <- m ;; k" := (Async.bind m (fun x => k))
  (at level 61, m at next level, right associativity) : async_scope.

(** ** services/cloudinary.ts: the upload client *)

Module CloudinaryUpload.
Import Js Async Cloudinary.
Local Open Scope async_scope.

(** The outside world of one call: how the network answers each request
    and what [Date.now()] reads. *)
Record World := {
  network : Request -> Result Response;
  now : Z
}.

Definition fetch (w : World) (r : Request) : M Response :=
  fun log => (network w r, (log ++ [r])%list).

Definition POST (f : FormData) : Request :=
  {| url := CLOUDINARY_API_URL;
     method := "POST";
     body := Some f;
     headers := [("Accept", "application/json")] |}.

(** [fileName.split('.').pop() || 'jpg'] *)
Definition fileExtension (fileName : string) : string :=
  toString (or (pop (split "." fileName)) (VString "jpg")).

(** [`image/${fileExtension === 'jpg' ? 'jpeg' : fileExtension}`] *)
Definition mimeType (fileName : string) : string :=
  let fileExtension := fileExtension fileName in
  "image/" ++ (if fileExtension =? "jpg" then "jpeg" else fileExtension).

Definition uploadImageToCloudinary (w : World) (imageUri fileName : string) : M string :=
  try_catch
    (let formData : FormData := [] in
     formData <-
       (if startsWith imageUri "data:" then
          response <- fetch w (GET imageUri) ;;
          blob <- await (blob response) ;;
          ret (append formData "file" (FormBlob blob fileName))
        else
          ret (append formData "file" (FormFile imageUri (mimeType fileName) fileName))) ;;
     let formData := append formData "upload_preset" (FormString CLOUDINARY_UPLOAD_PRESET) in
     let formData := append formData "folder" (FormString "uploads") in
     let formData :=
       append formData "public_id"
         (FormString (number_toString (now w) ++ "_" ++ toString (first (split "." fileName)))) in
     response <- fetch w (POST formData) ;;
     if negb (ok response) then
       errorText <- await (text response) ;;
       throw (Error ("Upload failed: " ++ number_toString (status response)
                       ++ " " ++ statusText response) None)
     else
       result <- await (json response) ;;
       ret (secure_url result))
    (fun error =>
       throw (Error ("Failed to upload image to Cloudinary: " ++ message_or_unknown error) None)).

End CloudinaryUpload.

(** ** services/firebase.ts: the upload client *)

Module FirebaseUpload.
Import Js Async.
Local Open Scope async_scope.

(** The storage SDK is used through three calls; [uploadBytes] and
    [getDownloadURL] return or throw as the SDK decides. *)
Record World := {
  network : Request -> Result Response;
  now : Z;
  uploadBytes : string -> Blob -> Result string;
  getDownloadURL : string -> Result string
}.

Definition fetch (w : World) (r : Request) : M Response :=
  fun log => (network w r, (log ++ [r])%list).

(** [ref(storage, path)]: a reference is its path. *)
Definition ref (path : string) : string := path.

Definition uploadImageToFirebase (w : World) (imageUri fileName : string) : M string :=
  try_catch
    (let imageRef := ref ("images/" ++ number_toString (now w) ++ "_" ++ fileName) in
     blob <-
       (if startsWith imageUri "data:" then
          response <- fetch w (GET imageUri) ;;
          await (blob response)
        else
          response <- fetch w (GET imageUri) ;;
          await (blob response)) ;;
     snapshot_ref <- await (uploadBytes w imageRef blob) ;;
     downloadURL <- await (getDownloadURL w snapshot_ref) ;;
     ret downloadURL)
    (fun error => throw (Error "Failed to upload image to Firebase" None)).

End FirebaseUpload.

(** ** app/(tabs)/index.tsx: the list of uploaded images on the upload screen *)

Module UploadScreen.
Import Js Async.

Record UploadedImage := {
  id : string;
  url : string;
  name : string;
  uploadedAt : Z
}.

(** The two clock readings taken when a record is made: [Date.now()] and
    [new Date()]. *)
Record Clock := {
  Date_now : Z;
  new_Date : Z
}.

(** [handleImageUpload]: upload, then on success
    [setUploadedImages(prev => [newImage, ...prev])]; on failure the list
    is left as it is (an alert is shown). *)
Definition handleImageUpload (w : FirebaseUpload.World) (c : Clock)
    (uri fileName : string) (prev : list UploadedImage) : list UploadedImage :=
  match result_of (FirebaseUpload.uploadImageToFirebase w uri fileName) with
  | Ok downloadURL =>
      let newImage :=
        {| id := number_toString (Date_now c);
           url := downloadURL;
           name := fileName;
           uploadedAt := new_Date c |} in
      newImage :: prev
  | Throw _ => prev
  end.

(** [setUploadedImages(prev => prev.filter(img => img.id !== id))] *)
Definition removeImage (id' : string) (prev : list UploadedImage) : list UploadedImage :=
  filter (fun img => negb (id img =? id')) prev.

End UploadScreen.

(** ** contexts/ImageContext.tsx: the persisted list of the technical guide *)

Module ImageContext.
Import Js.

Record ImageData := {
  id : string;
  url : string;
  uploadedAt : Z;
  fileName : string
}.

Record Clock := {
  Date_now : Z;
  new_Date : Z
}.

(** The hook's state: the [images] array and the entry kept under the key
    ['uploaded_images'], written as the array that was serialised last. *)
Record State := {
  images : list ImageData;
  uploaded_images : option (list ImageData)
}.

(** [setImages(l)] *)
Definition setImages (l : list ImageData) (st : State) : State :=
  {| images := l; uploaded_images := uploaded_images st |}.

(** [await AsyncStorage.setItem('uploaded_images', JSON.stringify(l))]:
    [outcome] tells whether the device accepts the write; a refused write
    leaves the entry as it was and throws. *)
Definition setItem (outcome : Async.Result unit) (l : list ImageData) (st : State)
    : State * Async.Result unit :=
  match outcome with
  | Async.Ok _ => ({| images := images st; uploaded_images := Some l |}, outcome)
  | Async.Throw _ => (st, outcome)
  end.

Definition addImage (c : Clock) (write : Async.Result unit) (url fileName : string)
      (st : State) : State * Async.Result unit :=
  let newImage :=
    {| id := number_toString (Date_now c);
       url := url;
       fileName := fileName;
       uploadedAt := new_Date c |} in
  let updatedImages := (images st ++ [newImage])%list in
  let st := setImages updatedImages st in
  setItem write updatedImages st.

Definition removeImage (write : Async.Result unit) (id' : string) (st : State)
    : State * Async.Result unit :=
  let updatedImages := filter (fun img => negb (id img =? id')) (images st) in
  let st := setImages updatedImages st in
  setItem write updatedImages st.

End ImageContext.

(** ** Sample worlds *)

Module Scenario.
Import Js Async.

Definition uploaded : CloudinaryResponse :=
  {| secure_url := "https://res.cloudinary.com/your-cloud-name/image/upload/v1/uploads/1700000000000_cat.png";
     public_id := "uploads/1700000000000_cat";
     cr_format := "png";
     bytes := 6;
     cr_width := 1;
     cr_height := 1;
     created_at := "2023-11-14T22:13:20Z" |}.

(** A response whose body can be read in every way. *)
Definition response (code : Z) (reason body : string) : Response :=
  {| status := code;
     statusText := reason;
     text := Ok body;
     blob := Ok (MkBlob body);
     json := Ok uploaded |}.

(** A response whose body is lost while it is read. *)
Definition broken_response (code : Z) (reason : string) : Response :=
  {| status := code;
     statusText := reason;
     text := Throw (Error "Network request failed" None);
     blob := Throw (Error "Network request failed" None);
     json := Throw (Error "Network request failed" None) |}.

(** The network answers every request with [r]. *)
Definition cloudinary_answering (r : Response) : CloudinaryUpload.World :=
  {| CloudinaryUpload.network := fun _ => Ok r;
     CloudinaryUpload.now := 1700000000000 |}.

(** The picked file can be read, the storage backend refuses the write with
    status 403 and the SDK throws its error. *)
Definition firebase_refusing : FirebaseUpload.World :=
  {| FirebaseUpload.network := fun _ => Ok (response 200 "OK" "GIF89a");
     FirebaseUpload.now := 1700000000000;
     FirebaseUpload.uploadBytes := fun _ _ =>
       Throw (Error "Firebase Storage: User does not have permission to access the object. (storage/unauthorized)"
                (Some 403%Z));
     FirebaseUpload.getDownloadURL := fun path =>
       Ok ("https://firebasestorage.googleapis.com/v0/b/your-project.appspot.com/o/" ++ path) |}.

(** Every step succeeds. *)
Definition firebase_accepting : FirebaseUpload.World :=
  {| FirebaseUpload.network := fun _ => Ok (response 200 "OK" "GIF89a");
     FirebaseUpload.now := 1700000000000;
     FirebaseUpload.uploadBytes := fun path _ => Ok path;
     FirebaseUpload.getDownloadURL := fun path =>
       Ok ("https://firebasestorage.googleapis.com/v0/b/your-project.appspot.com/o/" ++ path) |}.

(** Clock readings for a new record. *)
Definition screen_clock : UploadScreen.Clock :=
  {| UploadScreen.Date_now := 1700000000500; UploadScreen.new_Date := 1700000000500 |}.

Definition context_clock : ImageContext.Clock :=
  {| ImageContext.Date_now := 1700000000500; ImageContext.new_Date := 1700000000500 |}.

(** A record uploaded earlier, and the states that hold just it. *)
Definition earlier_upload : UploadScreen.UploadedImage :=
  {| UploadScreen.id := "1600000000000";
     UploadScreen.url := "https://firebasestorage.googleapis.com/v0/b/your-project.appspot.com/o/images/1600000000000_dog.jpg";
     UploadScreen.name := "dog.jpg";
     UploadScreen.uploadedAt := 1600000000000 |}.

Definition earlier_image : ImageContext.ImageData :=
  {| ImageContext.id := "1600000000000";
     ImageContext.url := "https://firebasestorage.googleapis.com/v0/b/your-project.appspot.com/o/images/1600000000000_dog.jpg";
     ImageContext.uploadedAt := 1600000000000;
     ImageContext.fileName := "dog.jpg" |}.

Definition one_image : ImageContext.State :=
  {| ImageContext.images := [earlier_image];
     ImageContext.uploaded_images := Some [earlier_image] |}.

End Scenario.

(** ** app/(tabs)/index.tsx: the handlers of the upload screen *)

Module Screen.
Import Js Async UploadScreen.

(** [Platform.OS] *)
Inductive OS := web | ios | android.

(** The state of the component, with two logs beside it: the alerts shown
    and the network requests sent, oldest first. *)
Record State := {
  uploadedImages : list UploadedImage;
  uploading : bool;
  dragActive : bool;
  alerts : list (string * string);
  requests : list Request
}.

Definition initial : State :=
  {| uploadedImages := []; uploading := false; dragActive := false;
     alerts := []; requests := [] |}.

Definition setUploadedImages (f : list UploadedImage -> list UploadedImage)
    (s : State) : State :=
  {| uploadedImages := f (uploadedImages s); uploading := uploading s;
     dragActive := dragActive s; alerts := alerts s; requests := requests s |}.

Definition setUploading (b : bool) (s : State) : State :=
  {| uploadedImages := uploadedImages s; uploading := b;
     dragActive := dragActive s; alerts := alerts s; requests := requests s |}.

Definition setDragActive (b : bool) (s : State) : State :=
  {| uploadedImages := uploadedImages s; uploading := uploading s;
     dragActive := b; alerts := alerts s; requests := requests s |}.

(** [Alert.alert(title, message)] *)
Definition Alert_alert (title message : string) (s : State) : State :=
  {| uploadedImages := uploadedImages s; uploading := uploading s;
     dragActive := dragActive s; alerts := (alerts s ++ [(title, message)])%list;
     requests := requests s |}.

Definition sent (l : list Request) (s : State) : State :=
  {| uploadedImages := uploadedImages s; uploading := uploading s;
     dragActive := dragActive s; alerts := alerts s;
     requests := (requests s ++ l)%list |}.

(** [handleImageUpload], with its [try], [catch] and [finally]. *)
Definition handleImageUpload (w : FirebaseUpload.World) (c : Clock)
    (uri fileName : string) (s : State) : State :=
  let s := setUploading true s in
  let upload := FirebaseUpload.uploadImageToFirebase w uri fileName in
  let s := sent (requests_of upload) s in
  let s :=
    match result_of upload with
    | Ok downloadURL =>
        let newImage :=
          {| id := number_toString (Date_now c);
             url := downloadURL;
             name := fileName;
             uploadedAt := new_Date c |} in
        let s := setUploadedImages (fun prev => newImage :: prev) s in
        Alert_alert "Success" "Image uploaded successfully!" s
    | Throw _ =>
        Alert_alert "Error" "Failed to upload image. Please try again." s
    end in
  setUploading false s.

(** [removeImage] *)
Definition removeImage (id' : string) (s : State) : State :=
  setUploadedImages (fun prev => filter (fun img => negb (id img =? id')) prev) s.

(** What the image picker hands back. *)
Record Asset := {
  asset_uri : string;
  asset_fileName : option string
}.

Record PickerResult := {
  canceled : bool;
  assets : list Asset
}.

(** [asset.fileName] as a value: [null] and [undefined] are both falsy. *)
Definition fileName_value (a : Asset) : value :=
  match asset_fileName a with
  | Some n => VString n
  | None => VUndefined
  end.

(** [pickImage]; [picker] is the outcome of [launchImageLibraryAsync] and
    [now] what [Date.now()] reads when a file name has to be made up. *)
Definition pickImage (picker : Result PickerResult) (now : Z)
    (w : FirebaseUpload.World) (c : Clock) (s : State) : State :=
  match picker with
  | Ok result =>
      if negb (canceled result) then
        match assets result with
        | asset :: _ =>
            let fileName :=
              toString (or (fileName_value asset)
                           (VString ("image_" ++ number_toString now ++ ".jpg"))) in
            handleImageUpload w c (asset_uri asset) fileName s
        | [] => s
        end
      else s
  | Throw _ => Alert_alert "Error" "Failed to pick image" s
  end.

(** A dropped file: its MIME type, its name and, when the [FileReader]
    succeeds, the data URL it reads. *)
Record DroppedFile := {
  file_type : string;
  file_name : string;
  file_dataUrl : option string
}.

Definition handleDragOver (os : OS) (s : State) : State :=
  match os with
  | web => setDragActive true s
  | _ => s
  end.

Definition handleDragLeave (os : OS) (s : State) : State :=
  match os with
  | web => setDragActive false s
  | _ => s
  end.

(** [handleDrop]: [reader.onload] runs when the file has been read; no
    handler is installed for a failed read. *)
Definition handleDrop (os : OS) (files : list DroppedFile)
    (w : FirebaseUpload.World) (c : Clock) (s : State) : State :=
  match os with
  | web =>
      let s := setDragActive false s in
      match files with
      | file :: _ =>
          if startsWith (file_type file) "image/" then
            match file_dataUrl file with
            | Some dataUrl => handleImageUpload w c dataUrl (file_name file) s
            | None => s
            end
          else Alert_alert "Error" "Please select an image file" s
      | [] => s
      end
  | _ => s
  end.

(** The events the screen reacts to, each with what the outside world does
    during it. *)
Inductive Event :=
| Upload (w : FirebaseUpload.World) (c : Clock) (uri fileName : string)
| Remove (id' : string)
| Pick (picker : Result PickerResult) (now : Z) (w : FirebaseUpload.World) (c : Clock)
| DragOver (os : OS)
| DragLeave (os : OS)
| Drop (os : OS) (files : list DroppedFile) (w : FirebaseUpload.World) (c : Clock).

Definition step (s : State) (e : Event) : State :=
  match e with
  | Upload w c uri fileName => handleImageUpload w c uri fileName s
  | Remove id' => removeImage id' s
  | Pick picker now w c => pickImage picker now w c s
  | DragOver os => handleDragOver os s
  | DragLeave os => handleDragLeave os s
  | Drop os files w c => handleDrop os files w c s
  end.

Definition run (events : list Event) (s : State) : State :=
  fold_left step events s.

(** The number of [Success] alerts shown so far. *)
Definition successes (s : State) : nat :=
  List.length (filter (fun a => fst a =? "Success") (alerts s)).

End Screen.

(** ** The technical guide: file validation and the image context hook *)

Module Guide.
Import Js Async ImageContext.

(** What [validateFile] reads of a [File]. *)
Record File := {
  size : Z;
  type : string
}.

Definition maxSize : Z := 5 * 1024 * 1024.

Definition allowedTypes : list string :=
  ["image/jpeg"; "image/png"; "image/gif"; "image/webp"].

(** [a.includes(x)] on an array of strings. *)
Definition array_includes (a : list string) (x : string) : bool :=
  existsb (fun y => y =? x) a.

(** [validateFile]: returns nothing or throws. *)
Definition validateFile (file : File) : Result unit :=
  if (size file >? maxSize)%Z then
    Throw (Error "File size must be less than 5MB" None)
  else if negb (array_includes allowedTypes (type file)) then
    Throw (Error "Only JPEG, PNG, GIF, and WebP images are allowed" None)
  else Ok tt.

(** The hook's values: the list with its stored entry, and [loading]. *)
Record Hook := {
  state : State;
  loading : bool
}.

(** [loadImages]: [getItem] is the outcome of
    [AsyncStorage.getItem('uploaded_images')], [None] standing for [null],
    and [JSON_parse] what parsing a stored text gives. *)
Definition loadImages (getItem : Result (option string))
    (JSON_parse : string -> Result (list ImageData)) (h : Hook)
    : Hook * Result unit :=
  let attempt : Hook * Result unit :=
    match getItem with
    | Ok stored =>
        let stored := match stored with Some text => VString text | None => VUndefined end in
        if truthy stored then
          match JSON_parse (toString stored) with
          | Ok parsed =>
              ({| state := setImages parsed (state h); loading := loading h |}, Ok tt)
          | Throw e => (h, Throw e)
          end
        else (h, Ok tt)
    | Throw e => (h, Throw e)
    end in
  let h := fst attempt in
  ({| state := state h; loading := false |}, Ok tt).

(** The calls made on the context, each with the outcome of its write. *)
Inductive Call :=
| AddImage (c : Clock) (write : Result unit) (url fileName : string)
| RemoveImage (write : Result unit) (id' : string).

Definition call (st : State) (op : Call) : State :=
  match op with
  | AddImage c write url fileName => fst (addImage c write url fileName st)
  | RemoveImage write id' => fst (removeImage write id' st)
  end.

Definition accepted (op : Call) : bool :=
  match op with
  | AddImage _ (Ok _) _ _ | RemoveImage (Ok _) _ => true
  | _ => false
  end.

(** The stored entry is the list in memory. *)
Definition in_sync (st : State) : Prop :=
  uploaded_images st = Some (images st).

End Guide.

(** ** The characters of a transformation string *)

Module Alphabet.
Import Js.

Definition lowercase (c : ascii) : bool :=
  let n := nat_of_ascii c in (97 <=? n)%nat && (n <=? 122)%nat.

(** The characters of a printed number, lower-case letters, [_] and [,]:
    digits, lower-case letters, the capitals [I] and [N], and the marks
    [-], [+], [.], [_] and [,].  What a transformation string is made of
    before its closing slash. *)
Definition segment_char (c : ascii) : bool :=
  number_char c || lowercase c || Ascii.eqb c "_" || Ascii.eqb c ",".

End Alphabet.

(** ** The names given to uploaded objects *)

Module Naming.
Import Js.

(** [`images/${Date.now()}_${fileName}`], the path handed to [ref] in
    [uploadImageToFirebase]. *)
Definition storagePath (now : Z) (fileName : string) : string :=
  "images/" ++ number_toString now ++ "_" ++ fileName.

(** [fileName.split('.')[0]] *)
Definition stem (fileName : string) : string :=
  toString (first (split "." fileName)).

(** [`${Date.now()}_${fileName.split('.')[0]}`], the [public_id] field of
    [uploadImageToCloudinary]. *)
Definition publicId (now : Z) (fileName : string) : string :=
  number_toString now ++ "_" ++ stem fileName.

End Naming.

(** ** The technical guide's own URL builder *)

Module GuideCloudinary.
Import Js.

(** The guide's builder knows three formats and no crop mode. *)
Inductive Format := FAuto | FWebp | FJpg.

Record Options := {
  width : option number;
  height : option number;
  quality : option Cloudinary.Quality;
  format : option Format
}.

Definition format_value (f : Format) : value :=
  VString match f with
          | FAuto => "auto"
          | FWebp => "webp"
          | FJpg => "jpg"
          end.

(** [getOptimizedImageUrl] as the guide prints it: the dimension group as
    in the service, then quality and format pushed unconditionally. *)
Definition getOptimizedImageUrl (publicId : string) (options : Options) : string :=
  let width := Cloudinary.number_value (width options) in
  let height := Cloudinary.number_value (height options) in
  let quality :=
    Cloudinary.quality_value (Cloudinary.with_default Cloudinary.QAuto (quality options)) in
  let format := format_value (Cloudinary.with_default FAuto (format options)) in
  let transformations := [] in
  let transformations :=
    if truthy (or width height)
    then push transformations (join "," (Cloudinary.dimensions width height))
    else transformations in
  let transformations :=
    push (push transformations ("q_" ++ toString quality)) ("f_" ++ toString format) in
  let transformationString := join "," transformations ++ "/" in
  "https://res.cloudinary.com/" ++ Cloudinary.CLOUDINARY_CLOUD_NAME ++ "/image/upload/"
    ++ transformationString ++ publicId.

(** The same options handed to the service's builder. *)
Definition for_service (options : Options) : Cloudinary.Options :=
  {| Cloudinary.width := width options;
     Cloudinary.height := height options;
     Cloudinary.quality := quality options;
     Cloudinary.format :=
       match format options with
       | Some FAuto => Some Cloudinary.FAuto
       | Some FWebp => Some Cloudinary.FWebp
       | Some FJpg => Some Cloudinary.FJpg
       | None => None
       end;
     Cloudinary.crop := None |}.

End GuideCloudinary.

(** ** The technical guide's uploader component *)

Module GuideUploader.
Import Js Async.

(** What [handleFileUpload] reads of the file it is given. *)
Record File := {
  uri : option string;
  name : string
}.

(** The surroundings of one call: the network and clock of the upload,
    what [URL.createObjectURL(file)] gives, and how the parent's
    [onUploadComplete] ends. *)
Record Env := {
  world : CloudinaryUpload.World;
  createObjectURL : Result string;
  onUploadComplete : string -> Result unit
}.

(** The component's state, with the alerts shown and the URLs handed
    to [onUploadComplete], oldest first. *)
Record State := {
  uploading : bool;
  progress : Z;
  alerts : list (string * string);
  reported : list string
}.

Definition setUploading (b : bool) (s : State) : State :=
  {| uploading := b; progress := progress s; alerts := alerts s;
     reported := reported s |}.

Definition setProgress (n : Z) (s : State) : State :=
  {| uploading := uploading s; progress := n; alerts := alerts s;
     reported := reported s |}.

Definition Alert_alert (title message : string) (s : State) : State :=
  {| uploading := uploading s; progress := progress s;
     alerts := (alerts s ++ [(title, message)])%list; reported := reported s |}.

Definition report (url : string) (s : State) : State :=
  {| uploading := uploading s; progress := progress s; alerts := alerts s;
     reported := (reported s ++ [url])%list |}.

(** [file.uri || URL.createObjectURL(file)]: the right operand is
    evaluated only when the left one is falsy. *)
Definition source (env : Env) (file : File) : Result string :=
  let uri := match uri file with Some u => VString u | None => VUndefined end in
  if truthy uri then Ok (toString uri) else createObjectURL env.

(** [handleFileUpload], with its [try], [catch] and [finally].  The
    service never calls the progress callback it is given. *)
Definition handleFileUpload (env : Env) (file : File) (s : State) : State :=
  let s := setUploading true s in
  let attempt : State * Result unit :=
    match source env file with
    | Ok imageUri =>
        match result_of
                (CloudinaryUpload.uploadImageToCloudinary (world env) imageUri (name file))
        with
        | Ok url => (report url s, onUploadComplete env url)
        | Throw error => (s, Throw error)
        end
    | Throw error => (s, Throw error)
    end in
  let s :=
    match snd attempt with
    | Ok _ => fst attempt
    | Throw error => Alert_alert "Upload failed" (message_or_unknown error) (fst attempt)
    end in
  setProgress 0 (setUploading false s).

End GuideUploader.

(** * Properties *)

Import Js Regex Cloudinary Async.

(** ** Strings *)

Lemma append_assoc (a b c : string) : (a ++ b) ++ c = a ++ (b ++ c).
Proof. induction a as [|x a IH]; simpl; [reflexivity | now rewrite IH]. Qed.

Lemma append_empty_r (a : string) : a ++ "" = a.
Proof. induction a as [|x a IH]; simpl; [reflexivity | now rewrite IH]. Qed.

Lemma length_append (a b : string) :
  String.length (a ++ b) = (String.length a + String.length b)%nat.
Proof. induction a as [|x a IH]; simpl; [reflexivity | now rewrite IH]. Qed.

Lemma substring_append_exact (a b : string) :
  substring 0 (String.length a) (a ++ b) = a.
Proof. induction a as [|x a IH]; simpl; [now destruct b | now rewrite IH]. Qed.

Lemma prefix_append (a b : string) : prefix a (a ++ b) = true.
Proof.
  induction a as [|x a IH]; simpl; [now destruct b |].
  destruct (ascii_dec x x) as [_|N]; [exact IH | now elim N].
Qed.

Lemma includes_prefix (s needle : string) :
  prefix needle s = true -> includes s needle = true.
Proof. intros H. destruct s; simpl in *; rewrite H; reflexivity. Qed.

Lemma includes_append (a needle b : string) :
  includes (a ++ needle ++ b) needle = true.
Proof.
  induction a as [|x a IH]; simpl.
  - apply includes_prefix, prefix_append.
  - rewrite IH. apply orb_true_r.
Qed.

Lemma every_append (p : ascii -> bool) (a b : string) :
  every p (a ++ b) = every p a && every p b.
Proof.
  induction a as [|x a IH]; simpl; [reflexivity |].
  now rewrite IH, andb_assoc.
Qed.

Lemma every_weaken (p q : ascii -> bool) (s : string) :
  (forall c, p c = true -> q c = true) -> every p s = true -> every q s = true.
Proof.
  intros Hpq. induction s as [|x s IH]; simpl; [reflexivity |].
  intros H. apply andb_true_iff in H as [Hx Hs].
  now rewrite (Hpq _ Hx), (IH Hs).
Qed.

Lemma every_string_of_uint (d : Decimal.uint) :
  every numeric (NilEmpty.string_of_uint d) = true.
Proof. induction d; simpl; auto. Qed.

Lemma every_number_toString (n : Z) : every numeric (number_toString n) = true.
Proof.
  unfold number_toString, NilZero.string_of_int.
  destruct (Z.to_int n) as [d|d]; simpl; unfold NilZero.string_of_uint;
    destruct d; try reflexivity; apply every_string_of_uint.
Qed.

Lemma every_number (p : ascii -> bool) (n : Z) :
  (forall c, numeric c = true -> p c = true) -> every p (number_toString n) = true.
Proof. intros H. eapply every_weaken; [exact H | apply every_number_toString]. Qed.

Lemma numeric_number_char (c : ascii) : numeric c = true -> number_char c = true.
Proof.
  unfold numeric, number_char. destruct (Js.is_digit c); [reflexivity |].
  cbn [orb]. intros H. apply Ascii.eqb_eq in H. now subst c.
Qed.

Lemma every_zeros (p : ascii -> bool) (n : nat) :
  p "0"%char = true -> every p (zeros n) = true.
Proof. intros H. induction n as [|n IH]; simpl; [reflexivity | now rewrite H]. Qed.

Lemma every_substring (p : ascii -> bool) (a b : nat) (s : string) :
  every p s = true -> every p (substring a b s) = true.
Proof.
  revert a b. induction s as [|c s IH]; intros a b H.
  - now destruct a, b.
  - simpl in H. apply andb_true_iff in H as [Hc Hs].
    destruct a as [|a]; [destruct b as [|b]; [reflexivity |] |]; simpl.
    + now rewrite Hc, IH.
    + now apply IH.
Qed.

Lemma every_digits (s : positive) : every number_char (digits s) = true.
Proof.
  eapply every_weaken; [exact numeric_number_char | apply every_string_of_uint].
Qed.

Lemma every_print_finite (s : positive) (n : Z) :
  every number_char (print_finite s n) = true.
Proof.
  unfold print_finite. cbv zeta.
  pose proof (every_digits s) as Hd.
  destruct (_ && _).
  { rewrite every_append, Hd. now apply every_zeros. }
  destruct (_ && _).
  { rewrite !every_append, !every_substring by exact Hd. reflexivity. }
  destruct (_ && _).
  { change ("0." ++ zeros (Z.to_nat (- n)) ++ digits s)
      with (String "0" (String "." (zeros (Z.to_nat (- n)) ++ digits s))).
    cbn [every]. rewrite every_append, Hd, every_zeros by reflexivity. reflexivity. }
  rewrite !every_append.
  assert (He : every number_char (number_toString (Z.abs (n - 1))) = true)
    by (apply every_number, numeric_number_char).
  rewrite He.
  assert (Hm : every number_char
                 match digits s with
                 | String c "" => String c ""
                 | String c rest => String c ("." ++ rest)
                 | "" => ""
                 end = true).
  { destruct (digits s) as [|c [|c' rest]]; [reflexivity | exact Hd |].
    simpl in Hd |- *. apply andb_true_iff in Hd as [Hc Hrest]. now rewrite Hc, Hrest. }
  rewrite Hm. now destruct (n - 1 <? 0)%Z.
Qed.

Lemma every_print_number (x : number) : every number_char (print_number x) = true.
Proof.
  destruct x as [|negative|negative|negative s n]; simpl;
    try reflexivity; try (now destruct negative).
  rewrite every_append, every_print_finite. now destruct negative.
Qed.

Lemma every_printed (p : ascii -> bool) (x : number) :
  (forall c, number_char c = true -> p c = true) -> every p (print_number x) = true.
Proof. intros H. eapply every_weaken; [exact H | apply every_print_number]. Qed.

(** A character that [number_char] rejects is not a character of a printed
    number. *)
Lemma printed_without (sep : ascii) (x : number) :
  number_char sep = false -> every (not_char sep) (print_number x) = true.
Proof.
  intros H. apply every_printed. intros c Hc. unfold not_char.
  apply negb_true_iff, Ascii.eqb_neq. intros ->. congruence.
Qed.

(** ** Worked examples *)

(** Numbers as [Number.prototype.toString] prints them: 400, 1.5, -150,
    1e21, 1e-7, 0.000001, 123450000000000000000, -0, NaN and -Infinity. *)
Example print_number_examples :
  map print_number
    [integer 400; Finite false 15 1; integer (-150); integer 1000000000000000000000;
     Finite false 1 (-6); Finite false 1 (-5); Finite false 12345 21; Zero true;
     NaN; Infinity true]
  = ["400"; "1.5"; "-150"; "1e+21"; "1e-7"; "0.000001"; "123450000000000000000";
     "0"; "NaN"; "-Infinity"].
Proof. vm_compute. reflexivity. Qed.

Example split_examples :
  split "." "cat.tar.gz" = ["cat"; "tar"; "gz"]
  /\ split "." "cat" = ["cat"]
  /\ split "." "cat." = ["cat"; ""]
  /\ split "." "" = [""].
Proof. repeat split. Qed.

(** File names without a usable extension: the whole name stands in for
    the extension, and an empty last segment falls back to [jpg]. *)
Example mimeType_examples :
  CloudinaryUpload.mimeType "cat.jpg" = "image/jpeg"
  /\ CloudinaryUpload.mimeType "cat.png" = "image/png"
  /\ CloudinaryUpload.mimeType "cat" = "image/cat"
  /\ CloudinaryUpload.mimeType "cat." = "image/jpeg".
Proof. repeat split. Qed.

(** The extractor on the URL an upload returns, with and without its
    version segment, and on a URL without extension. *)
Example extractPublicIdFromUrl_examples :
  extractPublicIdFromUrl
    "https://res.cloudinary.com/your-cloud-name/image/upload/v1700000000/uploads/17_cat.jpg"
  = "uploads/17_cat"
  /\ extractPublicIdFromUrl
       "https://res.cloudinary.com/your-cloud-name/image/upload/uploads/17_cat.jpg"
     = "uploads/17_cat"
  /\ extractPublicIdFromUrl
       "https://res.cloudinary.com/your-cloud-name/image/upload/v1700000000/uploads/17_cat"
     = "".
Proof. repeat split; vm_compute; reflexivity. Qed.

Example getOptimizedImageUrl_thumbnail :
  getOptimizedImageUrl "uploads/17_cat"
    {| width := Some (integer 150); height := Some (integer 150); quality := Some (QNumber (integer 80));
       format := Some FWebp; crop := Some CFit |}
  = "https://res.cloudinary.com/your-cloud-name/image/upload/w_150,h_150,c_fit,q_80,f_webp/uploads/17_cat".
Proof. vm_compute. reflexivity. Qed.

(** ** Splitting and joining *)

Lemma split_cons (sep : ascii) (s : string) : exists x xs, split sep s = x :: xs.
Proof.
  induction s as [|c s (x & xs & IH)]; simpl; [now eauto |].
  destruct (Ascii.eqb c sep); [now eauto | rewrite IH; now eauto].
Qed.

Lemma split_no_separator (sep : ascii) (x : string) :
  every (not_char sep) x = true -> split sep x = [x].
Proof.
  induction x as [|c x IH]; simpl; [reflexivity |].
  unfold not_char at 1. intros H. apply andb_true_iff in H as [Hc Hx].
  apply negb_true_iff in Hc. rewrite Hc, (IH Hx). reflexivity.
Qed.

Lemma split_append (sep : ascii) (x y : string) :
  every (not_char sep) x = true ->
  split sep (x ++ String sep y) = x :: split sep y.
Proof.
  induction x as [|c x IH]; simpl.
  - intros _. now rewrite Ascii.eqb_refl.
  - unfold not_char at 1. intros H. apply andb_true_iff in H as [Hc Hx].
    apply negb_true_iff in Hc. rewrite Hc, (IH Hx). reflexivity.
Qed.

Lemma split_join (sep : ascii) (l : list string) :
  l <> [] ->
  Forall (fun x => every (not_char sep) x = true) l ->
  split sep (join (String sep "") l) = l.
Proof.
  induction l as [|x l IH]; [congruence |].
  intros _ H. inversion H as [|? ? Hx Hl]; subst.
  destruct l as [|y l].
  - simpl. now apply split_no_separator.
  - change (join (String sep "") (x :: y :: l))
      with (x ++ String sep (join (String sep "") (y :: l))).
    rewrite split_append by exact Hx.
    rewrite IH by (congruence || exact Hl). reflexivity.
Qed.

Lemma join_cons (sep x : string) (l : list string) :
  l <> [] -> join sep (x :: l) = x ++ sep ++ join sep l.
Proof. destruct l; [congruence | reflexivity]. Qed.

Lemma join_app (sep : string) (d rest : list string) :
  d <> [] -> rest <> [] ->
  join sep (d ++ rest)%list = join sep d ++ sep ++ join sep rest.
Proof.
  intros Hd Hrest. induction d as [|x d IH]; [congruence |].
  destruct d as [|y d].
  - simpl app. now rewrite join_cons.
  - change ((x :: y :: d) ++ rest)%list with (x :: ((y :: d) ++ rest))%list.
    rewrite join_cons by (simpl; congruence).
    rewrite IH by congruence.
    rewrite (join_cons sep x (y :: d)) by congruence.
    now rewrite !append_assoc.
Qed.

Lemma join_join (sep : string) (d rest : list string) :
  d <> [] -> join sep (join sep d :: rest) = join sep (d ++ rest)%list.
Proof.
  intros Hd. destruct rest as [|r rest].
  - now rewrite app_nil_r.
  - rewrite join_app by congruence. now rewrite join_cons by congruence.
Qed.

(** ** The URL builder *)

Lemma truthy_or (a b : value) : truthy (or a b) = truthy a || truthy b.
Proof. unfold or. destruct (truthy a) eqn:E; simpl; [exact E | reflexivity]. Qed.

Lemma truthy_and (a b : value) : truthy (and a b) = truthy a && truthy b.
Proof. unfold and. destruct (truthy a) eqn:E; simpl; [reflexivity | exact E]. Qed.

Lemma truthy_crop (c : Crop) : truthy (crop_value c) = true.
Proof. now destruct c. Qed.

Lemma truthy_format (f : Format) : truthy (format_value f) = true.
Proof. now destruct f. Qed.

Lemma truthy_number (n : option number) :
  truthy (number_value n) = true <-> exists x, n = Some x /\ ~ zero_or_NaN x.
Proof.
  destruct n as [x|]; simpl.
  - split.
    + intros H. exists x. split; [reflexivity |].
      intros [-> | [negative ->]]; discriminate H.
    + intros (x' & [= <-] & H).
      destruct x as [|negative| |]; try reflexivity; elim H;
        [now left | right; now exists negative].
  - split; [discriminate | now intros (z & [=] & _)].
Qed.

(** The comma-joined [transformations] array reads as the flat list of
    directives: the dimension group is itself comma-joined. *)
Lemma transformations_join (o : Options) :
  join "," (transformations o) = join "," (ordered_directives o).
Proof.
  unfold transformations, ordered_directives, dimensions, push.
  rewrite truthy_and, truthy_or, truthy_crop, truthy_format.
  destruct (truthy (number_value (width o))), (truthy (number_value (height o))),
    (truthy (quality_value (with_default QAuto (quality o))));
    cbn [orb andb app];
    try reflexivity;
    match goal with
    | |- join _ (join _ ?d :: ?rest) = _ =>
        rewrite (join_join "," d rest) by discriminate
    end;
    reflexivity.
Qed.

Lemma ordered_directives_nonempty (o : Options) : ordered_directives o <> [].
Proof.
  unfold ordered_directives. cbv zeta.
  repeat match goal with
         | |- context [if ?b then _ else _] => destruct b
         end; discriminate.
Qed.

Lemma comma_free_number (x : number) : every (not_char ",") (print_number x) = true.
Proof. now apply printed_without. Qed.

Lemma Forall_if_singleton {A} (P : A -> Prop) (b : bool) (x : A) :
  (b = true -> P x) -> Forall P (if b then [x] else []).
Proof. destruct b; intros H; constructor; [now apply H | constructor]. Qed.

Lemma ordered_directives_comma_free (o : Options) :
  Forall (fun d => every (not_char ",") d = true) (ordered_directives o).
Proof.
  unfold ordered_directives. cbv zeta.
  apply Forall_app; split; [|apply Forall_app; split;
    [|apply Forall_app; split; [|apply Forall_app; split]]].
  - apply Forall_if_singleton. intros _.
    destruct (width o); simpl; [apply comma_free_number | reflexivity].
  - apply Forall_if_singleton. intros _.
    destruct (height o); simpl; [apply comma_free_number | reflexivity].
  - apply Forall_if_singleton. intros _.
    now destruct (with_default CFill (crop o)).
  - apply Forall_if_singleton. intros _.
    destruct (with_default QAuto (quality o)); simpl;
      [reflexivity | apply comma_free_number].
  - constructor; [|constructor]. now destruct (with_default FAuto (format o)).
Qed.

(** The directives read off the URL are the ordered list. *)
Lemma directives_ordered (o : Options) : directives o = ordered_directives o.
Proof.
  unfold directives. rewrite transformations_join.
  apply (split_join ","%char).
  - apply ordered_directives_nonempty.
  - apply ordered_directives_comma_free.
Qed.

Lemma transformations_nonempty (o : Options) :
  (0 <? List.length (transformations o))%nat = true.
Proof.
  unfold transformations, push. rewrite truthy_format.
  rewrite length_app. simpl. apply Nat.ltb_lt. lia.
Qed.

Lemma transformationString_join (o : Options) :
  transformationString o = join "," (directives o) ++ "/".
Proof.
  unfold transformationString. rewrite transformations_nonempty.
  now rewrite transformations_join, directives_ordered.
Qed.

Lemma prefix_empty (s : string) : prefix "" s = true.
Proof. now destruct s. Qed.

Lemma directive_rank_w (x : string) : directive_rank ("w_" ++ x) = Some 0%nat.
Proof. unfold directive_rank. simpl. now rewrite prefix_empty. Qed.

Lemma directive_rank_h (x : string) : directive_rank ("h_" ++ x) = Some 1%nat.
Proof. unfold directive_rank. simpl. now rewrite prefix_empty. Qed.

Lemma directive_rank_c (x : string) : directive_rank ("c_" ++ x) = Some 2%nat.
Proof. unfold directive_rank. simpl. now rewrite prefix_empty. Qed.

Lemma directive_rank_q (x : string) : directive_rank ("q_" ++ x) = Some 3%nat.
Proof. unfold directive_rank. simpl. now rewrite prefix_empty. Qed.

Lemma directive_rank_f (x : string) : directive_rank ("f_" ++ x) = Some 4%nat.
Proof. unfold directive_rank. simpl. now rewrite prefix_empty. Qed.

(** The kinds of the directives of a URL, in their order of appearance. *)
Lemma directive_ranks (o : Options) :
  let w := truthy (number_value (width o)) in
  let h := truthy (number_value (height o)) in
  let q := truthy (quality_value (with_default QAuto (quality o))) in
  map directive_rank (directives o) =
  map Some ((if w then [0] else []) ++ (if h then [1] else [])
            ++ (if w || h then [2] else []) ++ (if q then [3] else []) ++ [4])%nat%list.
Proof.
  cbv zeta. rewrite directives_ordered. unfold ordered_directives. cbv zeta.
  destruct (truthy (number_value (width o))), (truthy (number_value (height o))),
    (truthy (quality_value (with_default QAuto (quality o))));
    cbn [orb app map];
    now rewrite ?directive_rank_w, ?directive_rank_h, ?directive_rank_c,
      ?directive_rank_q, ?directive_rank_f.
Qed.

Lemma every_join (p : ascii -> bool) (sep : string) (l : list string) :
  every p sep = true -> Forall (fun x => every p x = true) l ->
  every p (join sep l) = true.
Proof.
  intros Hsep. induction 1 as [|x l Hx Hl IH]; [reflexivity |].
  destruct l as [|y l]; [exact Hx |].
  rewrite join_cons by congruence.
  now rewrite !every_append, Hx, Hsep, IH.
Qed.

Lemma includes_first_char (c d : ascii) (s : string) :
  every (not_char c) s = true -> includes s (String c (String d "")) = false.
Proof.
  induction s as [|x s IH]; simpl; [reflexivity |].
  unfold not_char at 1. intros H. apply andb_true_iff in H as [Hx Hs].
  apply negb_true_iff, Ascii.eqb_neq in Hx.
  destruct (ascii_dec c x) as [->|_]; [now elim Hx |].
  now apply IH.
Qed.

(** C2, as stated.  The builder does not put a slash between the dimension
    group and the crop directive: for
    [getOptimizedImageUrl("abc123", {width:400, height:300, quality:"auto",
    format:"webp"})] the part after [/image/upload/] is not
    [w_400,h_300/c_fill,q_auto,f_webp/abc123]. *)
Lemma c2_slash_separated_groups_refuted :
  getOptimizedImageUrl "abc123"
    {| width := Some (integer 400); height := Some (integer 300); quality := Some QAuto;
       format := Some FWebp; crop := None |}
  <> "https://res.cloudinary.com/your-cloud-name/image/upload/"
       ++ "w_400,h_300/c_fill,q_auto,f_webp/abc123".
Proof. vm_compute. discriminate. Qed.

(** C2, amended.  [getOptimizedImageUrl("abc123", {width:400, height:300,
    quality:"auto", format:"webp"})] is the fixed prefix followed by
    [w_400,h_300,c_fill,q_auto,f_webp/abc123]: all directives, the default
    crop [fill] included, are joined by commas and one slash precedes the
    asset id. *)
Theorem c2_concrete_url :
  getOptimizedImageUrl "abc123"
    {| width := Some (integer 400); height := Some (integer 300); quality := Some QAuto;
       format := Some FWebp; crop := None |}
  = "https://res.cloudinary.com/your-cloud-name/image/upload/"
      ++ "w_400,h_300,c_fill,q_auto,f_webp/abc123".
Proof. vm_compute. reflexivity. Qed.

(** C3, as stated.  With [width: 0] a dimension is given, yet no crop
    directive is in the URL: the directives are [q_auto] and [f_auto]. *)
Lemma c3_crop_iff_dimension_given_refuted :
  directives {| width := Some (integer 0); height := None; quality := None;
                format := None; crop := None |} = ["q_auto"; "f_auto"]
  /\ ~ (In (Some 2%nat)
          (map directive_rank
             (directives {| width := Some (integer 0); height := None; quality := None;
                            format := None; crop := None |}))
        <-> (width {| width := Some (integer 0); height := None; quality := None;
                      format := None; crop := None |} <> None
             \/ height {| width := Some (integer 0); height := None; quality := None;
                          format := None; crop := None |} <> None)).
Proof.
  split; [vm_compute; reflexivity |].
  intros [_ H]. assert (G : In (Some 2%nat) (map Some [3; 4]%nat)).
  { apply H. left. discriminate. }
  simpl in G. destruct G as [G | [G | []]]; discriminate G.
Qed.

(** C3, amended.  For every asset id and every options value the URL is the
    fixed prefix, the comma-joined directives, a slash and the asset id; the
    directives come in the order width, height, crop, quality, format (their
    kinds are strictly increasing); and a crop directive is among them if
    and only if width or height is given with a truthy value, that is, one
    that is none of [0], [-0] and [NaN]. *)
Theorem c3_directive_order (publicId : string) (o : Options) :
  getOptimizedImageUrl publicId o =
    "https://res.cloudinary.com/your-cloud-name/image/upload/"
      ++ join "," (directives o) ++ "/" ++ publicId
  /\ (exists ranks, map directive_rank (directives o) = map Some ranks
                    /\ StronglySorted lt ranks)
  /\ (In (Some 2%nat) (map directive_rank (directives o))
      <-> (exists n, width o = Some n /\ ~ zero_or_NaN n)
          \/ (exists n, height o = Some n /\ ~ zero_or_NaN n)).
Proof.
  split; [|split].
  - unfold getOptimizedImageUrl. rewrite transformationString_join.
    now rewrite append_assoc.
  - eexists. split; [apply directive_ranks |]. cbv zeta.
    destruct (truthy (number_value (width o))), (truthy (number_value (height o))),
      (truthy (quality_value (with_default QAuto (quality o))));
      cbn [orb app]; repeat constructor.
  - rewrite <- !truthy_number, directive_ranks. cbv zeta.
    destruct (truthy (number_value (width o))), (truthy (number_value (height o))),
      (truthy (quality_value (with_default QAuto (quality o))));
      cbn [orb app map In]; intuition discriminate.
Qed.

(** C4.  With no width, no height, no crop and quality and format left to
    their defaults, the URL is the fixed prefix, [q_auto,f_auto], a slash and
    the asset id: both default directives are emitted. *)
Theorem c4_defaults_emitted (publicId : string) :
  getOptimizedImageUrl publicId no_options =
    "https://res.cloudinary.com/your-cloud-name/image/upload/"
      ++ "q_auto,f_auto" ++ "/" ++ publicId
  /\ directives no_options = ["q_auto"; "f_auto"].
Proof. split; reflexivity. Qed.

Lemma q_free_number (x : number) : every (not_char "q") (print_number x) = true.
Proof. now apply printed_without. Qed.

(** C10.  When [quality] is the number 0, the URL is the fixed prefix, the
    transformation string and the asset id; the transformation string
    contains no [q_], and none of its directives is a quality directive. *)
Theorem c10_zero_quality_not_emitted (publicId : string) (o : Options) :
  quality o = Some (QNumber (integer 0)) ->
  getOptimizedImageUrl publicId o =
    "https://res.cloudinary.com/your-cloud-name/image/upload/"
      ++ transformationString o ++ publicId
  /\ includes (transformationString o) "q_" = false
  /\ ~ In (Some 3%nat) (map directive_rank (directives o)).
Proof.
  intros Hq. split; [reflexivity | split].
  - apply includes_first_char.
    rewrite transformationString_join, directives_ordered, every_append.
    apply andb_true_iff. split; [|reflexivity].
    apply every_join; [reflexivity |].
    unfold ordered_directives. cbv zeta. rewrite Hq. cbn [with_default quality_value truthy integer].
    apply Forall_app; split; [|apply Forall_app; split; [|apply Forall_app; split]].
    + apply Forall_if_singleton. intros _.
      destruct (width o); simpl; [apply q_free_number | reflexivity].
    + apply Forall_if_singleton. intros _.
      destruct (height o); simpl; [apply q_free_number | reflexivity].
    + apply Forall_if_singleton. intros _.
      now destruct (with_default CFill (crop o)).
    + constructor; [|constructor]. now destruct (with_default FAuto (format o)).
  - rewrite directive_ranks. cbv zeta. rewrite Hq.
    cbn [with_default quality_value truthy integer].
    destruct (truthy (number_value (width o))), (truthy (number_value (height o)));
      cbn [orb app map In]; intuition discriminate.
Qed.

Lemma c10_zero_quality_witness :
  quality {| width := Some (integer 400); height := None; quality := Some (QNumber (integer 0));
             format := None; crop := None |} = Some (QNumber (integer 0))
  /\ getOptimizedImageUrl "abc123"
       {| width := Some (integer 400); height := None; quality := Some (QNumber (integer 0));
          format := None; crop := None |}
     = "https://res.cloudinary.com/your-cloud-name/image/upload/w_400,c_fill,f_auto/abc123".
Proof.
  split; [reflexivity |].
  destruct (c10_zero_quality_not_emitted "abc123"
              {| width := Some (integer 400); height := None; quality := Some (QNumber (integer 0));
                 format := None; crop := None |} eq_refl) as [H _].
  rewrite H. reflexivity.
Defined.

(** ** The upload clients *)

Import CloudinaryUpload.

Lemma split_two (sep : ascii) (b e : string) :
  exists x y ys, split sep (b ++ String sep e) = x :: y :: ys.
Proof.
  induction b as [|c b (x & y & ys & IH)]; simpl.
  - rewrite Ascii.eqb_refl. destruct (split_cons sep e) as (y & ys & ->). now eauto.
  - destruct (Ascii.eqb c sep); rewrite IH; now eauto.
Qed.

Lemma pop_split_append (sep : ascii) (b e : string) :
  pop (split sep (b ++ String sep e)) = pop (split sep e).
Proof.
  induction b as [|c b IH]; simpl.
  - rewrite Ascii.eqb_refl. now destruct (split_cons sep e) as (y & ys & ->).
  - destruct (split_two sep b e) as (x & y & ys & E).
    rewrite E in IH |- *. now destruct (Ascii.eqb c sep).
Qed.

(** The extension read by the client is the part after the last dot. *)
Lemma fileExtension_trailing (base ext : string) :
  ext <> "" -> every (not_char ".") ext = true ->
  fileExtension (base ++ "." ++ ext) = ext.
Proof.
  intros Hne Hdot. unfold fileExtension.
  change ("." ++ ext) with (String "." ext).
  rewrite pop_split_append, split_no_separator by exact Hdot.
  unfold or. simpl. apply String.eqb_neq in Hne. now rewrite Hne.
Qed.

Lemma getAll_file (v : FormValue) (a b c : FormValue) :
  getAll (append (append (append (append [] "file" v) "upload_preset" a) "folder" b)
            "public_id" c) "file" = [v].
Proof. reflexivity. Qed.

Ltac run_upload :=
  unfold uploadImageToCloudinary, FirebaseUpload.uploadImageToFirebase,
    requests_of, result_of, try_catch, bind, fetch, FirebaseUpload.fetch,
    await, ret, throw.

(** C6.  A source reference that starts with [data:] is fetched and read as
    a blob, and the form that is posted has that blob, under the file name,
    as its [file] field.  Any other reference is posted without being
    fetched, as the descriptor [{uri, type, name}] whose type is
    [image/jpeg] for the trailing extension [jpg] and [image/<ext>] for any
    other trailing extension. *)
Theorem c6_file_field :
  (forall w imageUri fileName r b,
      startsWith imageUri "data:" = true ->
      network w (GET imageUri) = Ok r ->
      blob r = Ok b ->
      exists fd,
        requests_of (uploadImageToCloudinary w imageUri fileName)
          = [GET imageUri; POST fd]
        /\ getAll fd "file" = [FormBlob b fileName])
  /\ (forall w imageUri base ext,
      startsWith imageUri "data:" = false ->
      ext <> "" ->
      every (not_char ".") ext = true ->
      exists fd,
        requests_of (uploadImageToCloudinary w imageUri (base ++ "." ++ ext))
          = [POST fd]
        /\ getAll fd "file"
           = [FormFile imageUri
                ("image/" ++ (if ext =? "jpg" then "jpeg" else ext))
                (base ++ "." ++ ext)]).
Proof.
  split.
  - intros w imageUri fileName r b Hdata Hget Hblob.
    eexists. run_upload. rewrite Hdata. cbn [app]. rewrite Hget, Hblob.
    split; [|apply getAll_file].
    match goal with
    | |- context [network w (POST ?f)] =>
        destruct (network w (POST f)) as [r'|e];
          [destruct (ok r'); [destruct (json r') | destruct (text r')] |]
    end; reflexivity.
  - intros w imageUri base ext Hdata Hne Hdot.
    eexists. run_upload. rewrite Hdata. cbn [app].
    split.
    + match goal with
      | |- context [network w (POST ?f)] =>
          destruct (network w (POST f)) as [r'|e];
            [destruct (ok r'); [destruct (json r') | destruct (text r')] |]
      end; reflexivity.
    + unfold mimeType. rewrite fileExtension_trailing by assumption.
      apply getAll_file.
Qed.

Lemma c6_file_field_witness :
  (startsWith "data:image/gif;base64,R0lGODlh" "data:" = true
   /\ network (Scenario.cloudinary_answering (Scenario.response 200 "OK" "GIF89a"))
        (GET "data:image/gif;base64,R0lGODlh")
      = Ok (Scenario.response 200 "OK" "GIF89a")
   /\ blob (Scenario.response 200 "OK" "GIF89a") = Ok (MkBlob "GIF89a")
   /\ exists fd,
       requests_of
         (uploadImageToCloudinary
            (Scenario.cloudinary_answering (Scenario.response 200 "OK" "GIF89a"))
            "data:image/gif;base64,R0lGODlh" "cat.gif")
       = [GET "data:image/gif;base64,R0lGODlh"; POST fd]
       /\ getAll fd "file" = [FormBlob (MkBlob "GIF89a") "cat.gif"])
  /\ (startsWith "file:///tmp/cat.jpg" "data:" = false
      /\ "jpg" <> ""
      /\ every (not_char ".") "jpg" = true
      /\ exists fd,
          requests_of
            (uploadImageToCloudinary
               (Scenario.cloudinary_answering (Scenario.response 200 "OK" "GIF89a"))
               "file:///tmp/cat.jpg" ("cat" ++ "." ++ "jpg"))
          = [POST fd]
          /\ getAll fd "file"
             = [FormFile "file:///tmp/cat.jpg" "image/jpeg" ("cat" ++ "." ++ "jpg")]).
Proof.
  split.
  - repeat (split; [reflexivity |]).
    apply (proj1 c6_file_field
             (Scenario.cloudinary_answering (Scenario.response 200 "OK" "GIF89a"))
             "data:image/gif;base64,R0lGODlh" "cat.gif"
             (Scenario.response 200 "OK" "GIF89a") (MkBlob "GIF89a"));
      reflexivity.
  - split; [reflexivity | split; [discriminate | split; [reflexivity |]]].
    apply (proj2 c6_file_field
             (Scenario.cloudinary_answering (Scenario.response 200 "OK" "GIF89a"))
             "file:///tmp/cat.jpg" "cat" "jpg"); [reflexivity | discriminate | reflexivity].
Defined.

(** C5, as stated.  The Firebase client throws the same fixed message
    whatever made the upload fail, here a write refused with status 403;
    and the Cloudinary client, when the body of a 500 response cannot be
    read, reports that reading error instead of the status. *)
Lemma c5_status_in_message_refuted :
  (result_of (FirebaseUpload.uploadImageToFirebase Scenario.firebase_refusing
                "file:///tmp/cat.jpg" "cat.jpg")
   = Throw (Error "Failed to upload image to Firebase" None)
   /\ includes "Failed to upload image to Firebase" "403" = false)
  /\ (result_of (uploadImageToCloudinary
                   (Scenario.cloudinary_answering
                      (Scenario.broken_response 500 "Internal Server Error"))
                   "file:///tmp/cat.jpg" "cat.jpg")
      = Throw (Error "Failed to upload image to Cloudinary: Network request failed" None)
      /\ includes "Failed to upload image to Cloudinary: Network request failed" "500"
         = false).
Proof. repeat split; vm_compute; reflexivity. Qed.

(** C5, amended.  Cloudinary client: when a POST it has sent is answered
    with a status outside 200-299 and the body of that answer can be read,
    it throws an error whose message is [Failed to upload image to
    Cloudinary: Upload failed: <status> <statusText>], which contains the
    status code.  Firebase client: whenever it throws, the error message is
    the fixed text [Failed to upload image to Firebase]. *)
Theorem c5_upload_failure_message :
  (forall w imageUri fileName req r errorText,
      In req (requests_of (uploadImageToCloudinary w imageUri fileName)) ->
      method req = "POST" ->
      network w req = Ok r ->
      ok r = false ->
      text r = Ok errorText ->
      result_of (uploadImageToCloudinary w imageUri fileName)
        = Throw (Error ("Failed to upload image to Cloudinary: Upload failed: "
                          ++ number_toString (status r) ++ " " ++ statusText r) None)
      /\ includes ("Failed to upload image to Cloudinary: Upload failed: "
                     ++ number_toString (status r) ++ " " ++ statusText r)
           (number_toString (status r)) = true)
  /\ (forall w imageUri fileName e,
      result_of (FirebaseUpload.uploadImageToFirebase w imageUri fileName) = Throw e ->
      e = Error "Failed to upload image to Firebase" None).
Proof.
  split.
  - intros w imageUri fileName req r errorText Hin Hpost Hnet Hok Htext.
    split; [|apply includes_append].
    revert Hin. run_upload.
    assert (Hget : forall u, req <> GET u) by (intros u ->; discriminate Hpost).
    destruct (startsWith imageUri "data:"); cbn [app].
    + destruct (network w (GET imageUri)) as [r0|e0].
      * destruct (blob r0) as [b|e1].
        -- match goal with
           | |- context [network w (POST ?f)] =>
               destruct (network w (POST f)) as [r'|e] eqn:E;
                 [destruct (ok r') eqn:Eok;
                    [destruct (json r') | destruct (text r') eqn:Et] |]
           end; cbn [fst snd In];
             (intros [H | [H | []]]; [now elim (Hget imageUri) |]);
             subst req; rewrite Hnet in E; try discriminate E;
             injection E as <-; first [reflexivity | congruence].
        -- cbn [fst snd In]. intros [H | []]. now elim (Hget imageUri).
      * cbn [fst snd In]. intros [H | []]. now elim (Hget imageUri).
    + match goal with
      | |- context [network w (POST ?f)] =>
          destruct (network w (POST f)) as [r'|e] eqn:E;
            [destruct (ok r') eqn:Eok;
               [destruct (json r') | destruct (text r') eqn:Et] |]
      end; cbn [fst snd In];
        (intros [H | []]);
        subst req; rewrite Hnet in E; try discriminate E;
        injection E as <-; first [reflexivity | congruence].
  - intros w imageUri fileName e. run_upload.
    destruct (startsWith imageUri "data:");
      destruct (FirebaseUpload.network w (GET imageUri)) as [r0|e0];
      try destruct (blob r0) as [b|e1];
      try destruct (FirebaseUpload.uploadBytes w _ b) as [p|e2];
      try destruct (FirebaseUpload.getDownloadURL w p) as [u|e3];
      cbn [fst]; congruence.
Qed.

Lemma c5_upload_failure_message_witness :
  (In (POST [("file", FormFile "file:///tmp/cat.jpg" "image/jpeg" "cat.jpg");
             ("upload_preset", FormString "your-upload-preset");
             ("folder", FormString "uploads");
             ("public_id", FormString "1700000000000_cat")])
      (requests_of (uploadImageToCloudinary
                      (Scenario.cloudinary_answering
                         (Scenario.response 401 "Unauthorized" "Invalid upload preset"))
                      "file:///tmp/cat.jpg" "cat.jpg"))
   /\ result_of (uploadImageToCloudinary
                   (Scenario.cloudinary_answering
                      (Scenario.response 401 "Unauthorized" "Invalid upload preset"))
                   "file:///tmp/cat.jpg" "cat.jpg")
      = Throw (Error "Failed to upload image to Cloudinary: Upload failed: 401 Unauthorized"
                 None))
  /\ (exists e,
        result_of (FirebaseUpload.uploadImageToFirebase Scenario.firebase_refusing
                     "file:///tmp/cat.jpg" "cat.jpg") = Throw e
        /\ e = Error "Failed to upload image to Firebase" None).
Proof.
  split.
  - assert (Hin : In (POST [("file", FormFile "file:///tmp/cat.jpg" "image/jpeg" "cat.jpg");
                            ("upload_preset", FormString "your-upload-preset");
                            ("folder", FormString "uploads");
                            ("public_id", FormString "1700000000000_cat")])
                    (requests_of (uploadImageToCloudinary
                       (Scenario.cloudinary_answering
                          (Scenario.response 401 "Unauthorized" "Invalid upload preset"))
                       "file:///tmp/cat.jpg" "cat.jpg"))).
    { vm_compute. left. reflexivity. }
    split; [exact Hin |].
    apply (proj1 (proj1 c5_upload_failure_message _ _ _ _
                    (Scenario.response 401 "Unauthorized" "Invalid upload preset")
                    "Invalid upload preset" Hin eq_refl eq_refl eq_refl eq_refl)).
  - eexists. split; [vm_compute; reflexivity |].
    apply (proj2 c5_upload_failure_message Scenario.firebase_refusing
             "file:///tmp/cat.jpg" "cat.jpg").
    vm_compute. reflexivity.
Defined.

(** ** The image registries *)

Lemma filter_keeps_all {A} (f : A -> bool) (l : list A) :
  Forall (fun x => f x = true) l -> filter f l = l.
Proof. induction 1 as [|x l Hx _ IH]; simpl; [reflexivity | now rewrite Hx, IH]. Qed.

Lemma filter_drops_last {A} (f : A -> bool) (l : list A) (x : A) :
  Forall (fun y => f y = true) l -> f x = false -> filter f (l ++ [x]) = l.
Proof.
  intros Hl Hx. rewrite filter_app, filter_keeps_all by exact Hl.
  simpl. rewrite Hx. apply app_nil_r.
Qed.

Lemma handleImageUpload_success w c uri fileName prev downloadURL :
  result_of (FirebaseUpload.uploadImageToFirebase w uri fileName) = Ok downloadURL ->
  UploadScreen.handleImageUpload w c uri fileName prev
  = {| UploadScreen.id := number_toString (UploadScreen.Date_now c);
       UploadScreen.url := downloadURL;
       UploadScreen.name := fileName;
       UploadScreen.uploadedAt := UploadScreen.new_Date c |} :: prev.
Proof. intros H. unfold UploadScreen.handleImageUpload. now rewrite H. Qed.

(** C8, as stated.  [addImage] of the image context puts the new record
    after the records already there: the record uploaded earlier stays
    first. *)
Lemma c8_prepend_refuted :
  ImageContext.images
    (fst (ImageContext.addImage Scenario.context_clock (Ok tt)
            "https://firebasestorage.googleapis.com/v0/b/your-project.appspot.com/o/images/1700000000000_cat.jpg"
            "cat.jpg" Scenario.one_image))
  = [Scenario.earlier_image;
     {| ImageContext.id := "1700000000500";
        ImageContext.url := "https://firebasestorage.googleapis.com/v0/b/your-project.appspot.com/o/images/1700000000000_cat.jpg";
        ImageContext.uploadedAt := 1700000000500;
        ImageContext.fileName := "cat.jpg" |}]
  /\ hd_error
       (ImageContext.images
          (fst (ImageContext.addImage Scenario.context_clock (Ok tt)
                  "https://firebasestorage.googleapis.com/v0/b/your-project.appspot.com/o/images/1700000000000_cat.jpg"
                  "cat.jpg" Scenario.one_image)))
     <> Some {| ImageContext.id := "1700000000500";
                ImageContext.url := "https://firebasestorage.googleapis.com/v0/b/your-project.appspot.com/o/images/1700000000000_cat.jpg";
                ImageContext.uploadedAt := 1700000000500;
                ImageContext.fileName := "cat.jpg" |}.
Proof. split; [vm_compute; reflexivity | vm_compute; discriminate]. Qed.

(** C8, amended.  On the upload screen a successful [handleImageUpload]
    puts the new record first and the previous records after it in their
    order; [addImage] of the image context puts the new record last, after
    the previous records in their order, and stores that same list when the
    write is accepted. *)
Theorem c8_add_position :
  (forall w c uri fileName prev downloadURL,
      result_of (FirebaseUpload.uploadImageToFirebase w uri fileName) = Ok downloadURL ->
      UploadScreen.handleImageUpload w c uri fileName prev
      = {| UploadScreen.id := number_toString (UploadScreen.Date_now c);
           UploadScreen.url := downloadURL;
           UploadScreen.name := fileName;
           UploadScreen.uploadedAt := UploadScreen.new_Date c |} :: prev)
  /\ (forall c write url fileName st,
      ImageContext.images (fst (ImageContext.addImage c write url fileName st))
      = (ImageContext.images st
           ++ [{| ImageContext.id := number_toString (ImageContext.Date_now c);
                  ImageContext.url := url;
                  ImageContext.uploadedAt := ImageContext.new_Date c;
                  ImageContext.fileName := fileName |}])%list
      /\ (write = Ok tt ->
          ImageContext.uploaded_images (fst (ImageContext.addImage c write url fileName st))
          = Some (ImageContext.images
                    (fst (ImageContext.addImage c write url fileName st))))).
Proof.
  split.
  - intros w c uri fileName prev downloadURL H.
    now apply handleImageUpload_success.
  - intros c write url fileName st. split.
    + now destruct write.
    + now intros ->.
Qed.

Lemma c8_add_position_witness :
  result_of (FirebaseUpload.uploadImageToFirebase Scenario.firebase_accepting
               "file:///tmp/cat.jpg" "cat.jpg")
  = Ok "https://firebasestorage.googleapis.com/v0/b/your-project.appspot.com/o/images/1700000000000_cat.jpg"
  /\ UploadScreen.handleImageUpload Scenario.firebase_accepting Scenario.screen_clock
       "file:///tmp/cat.jpg" "cat.jpg" [Scenario.earlier_upload]
     = [{| UploadScreen.id := "1700000000500";
           UploadScreen.url := "https://firebasestorage.googleapis.com/v0/b/your-project.appspot.com/o/images/1700000000000_cat.jpg";
           UploadScreen.name := "cat.jpg";
           UploadScreen.uploadedAt := 1700000000500 |};
        Scenario.earlier_upload].
Proof.
  assert (H : result_of (FirebaseUpload.uploadImageToFirebase Scenario.firebase_accepting
                           "file:///tmp/cat.jpg" "cat.jpg")
              = Ok "https://firebasestorage.googleapis.com/v0/b/your-project.appspot.com/o/images/1700000000000_cat.jpg")
    by (vm_compute; reflexivity).
  split; [exact H |].
  rewrite (proj1 c8_add_position Scenario.firebase_accepting Scenario.screen_clock
             "file:///tmp/cat.jpg" "cat.jpg" [Scenario.earlier_upload] _ H).
  reflexivity.
Defined.

(** C9.  If no record of the list has the id that the new record gets, then
    adding the record and removing that id gives back the list as it was,
    the same records in the same order; on the upload screen and in the
    image context alike. *)
Theorem c9_add_then_remove :
  (forall w c uri fileName prev downloadURL,
      result_of (FirebaseUpload.uploadImageToFirebase w uri fileName) = Ok downloadURL ->
      Forall (fun img => UploadScreen.id img <> number_toString (UploadScreen.Date_now c))
        prev ->
      UploadScreen.removeImage (number_toString (UploadScreen.Date_now c))
        (UploadScreen.handleImageUpload w c uri fileName prev)
      = prev)
  /\ (forall c write write' url fileName st,
      Forall (fun img => ImageContext.id img <> number_toString (ImageContext.Date_now c))
        (ImageContext.images st) ->
      ImageContext.images
        (fst (ImageContext.removeImage write' (number_toString (ImageContext.Date_now c))
                (fst (ImageContext.addImage c write url fileName st))))
      = ImageContext.images st).
Proof.
  split.
  - intros w c uri fileName prev downloadURL Hup Hfresh.
    rewrite (handleImageUpload_success w c uri fileName prev downloadURL Hup).
    unfold UploadScreen.removeImage. cbn [filter UploadScreen.id].
    rewrite String.eqb_refl. cbn [negb].
    apply filter_keeps_all.
    eapply Forall_impl; [|exact Hfresh].
    intros img H. now apply negb_true_iff, String.eqb_neq.
  - intros c write write' url fileName st Hfresh.
    unfold ImageContext.removeImage, ImageContext.addImage.
    destruct write, write'; cbn [ImageContext.setItem ImageContext.setImages fst ImageContext.images];
    apply filter_drops_last.
    all: try (eapply Forall_impl; [|exact Hfresh];
              intros img H; now apply negb_true_iff, String.eqb_neq).
    all: cbn [ImageContext.id]; now rewrite String.eqb_refl.
Qed.

Lemma c9_add_then_remove_witness :
  (result_of (FirebaseUpload.uploadImageToFirebase Scenario.firebase_accepting
                "file:///tmp/cat.jpg" "cat.jpg")
   = Ok "https://firebasestorage.googleapis.com/v0/b/your-project.appspot.com/o/images/1700000000000_cat.jpg"
   /\ Forall (fun img => UploadScreen.id img
                         <> number_toString (UploadScreen.Date_now Scenario.screen_clock))
        [Scenario.earlier_upload]
   /\ UploadScreen.removeImage
        (number_toString (UploadScreen.Date_now Scenario.screen_clock))
        (UploadScreen.handleImageUpload Scenario.firebase_accepting Scenario.screen_clock
           "file:///tmp/cat.jpg" "cat.jpg" [Scenario.earlier_upload])
      = [Scenario.earlier_upload])
  /\ (Forall (fun img => ImageContext.id img
                         <> number_toString (ImageContext.Date_now Scenario.context_clock))
        (ImageContext.images Scenario.one_image)
      /\ ImageContext.images
           (fst (ImageContext.removeImage (Ok tt)
                   (number_toString (ImageContext.Date_now Scenario.context_clock))
                   (fst (ImageContext.addImage Scenario.context_clock (Ok tt)
                           "https://firebasestorage.googleapis.com/v0/b/your-project.appspot.com/o/images/1700000000000_cat.jpg"
                           "cat.jpg" Scenario.one_image))))
         = ImageContext.images Scenario.one_image).
Proof.
  assert (Hup : result_of (FirebaseUpload.uploadImageToFirebase Scenario.firebase_accepting
                             "file:///tmp/cat.jpg" "cat.jpg")
                = Ok "https://firebasestorage.googleapis.com/v0/b/your-project.appspot.com/o/images/1700000000000_cat.jpg")
    by (vm_compute; reflexivity).
  assert (Hs : Forall (fun img => UploadScreen.id img
                         <> number_toString (UploadScreen.Date_now Scenario.screen_clock))
                 [Scenario.earlier_upload])
    by (constructor; [vm_compute; discriminate | constructor]).
  assert (Hc : Forall (fun img => ImageContext.id img
                         <> number_toString (ImageContext.Date_now Scenario.context_clock))
                 (ImageContext.images Scenario.one_image))
    by (constructor; [vm_compute; discriminate | constructor]).
  split.
  - split; [exact Hup | split; [exact Hs |]].
    exact (proj1 c9_add_then_remove _ _ _ _ _ _ Hup Hs).
  - split; [exact Hc |].
    exact (proj2 c9_add_then_remove _ _ _ _ _ _ Hc).
Defined.

(** ** The matcher *)

Lemma plus_sound {R} (p : cclass) (s : string) (k : string -> option R) (v : R) :
  plus p s k = Some v ->
  exists x rest,
    s = x ++ rest /\ x <> "" /\ every (accepts p) x = true /\ k rest = Some v.
Proof.
  induction s as [|c s IH]; simpl; [discriminate |].
  destruct (accepts p c) eqn:Hc; [|discriminate].
  destruct (plus p s k) as [r|] eqn:E.
  - intros [= ->]. destruct (IH eq_refl) as (x & rest & -> & _ & Hx & Hk).
    exists (String c x), rest. simpl. rewrite Hc, Hx. now repeat split.
  - intros Hk. exists (String c ""), s. simpl. rewrite Hc. now repeat split.
Qed.

(** Whatever the matcher finds is a match of the pattern. *)
Lemma run_sound {R} (r : regex) :
  forall (s : string) (cap : option string)
         (k : string -> option string -> option R) (v : R),
    run r s cap k = Some v ->
    exists x rest cap', s = x ++ rest /\ matches r x rest /\ k rest cap' = Some v.
Proof.
  induction r as [p | p | r1 IH1 r2 IH2 | r IH | r IH |]; intros s cap k v; simpl.
  - destruct s as [|c s]; [discriminate |].
    destruct (accepts p c) eqn:Hc; [|discriminate].
    intros Hk. exists (String c ""), s, cap. repeat split; [now constructor | exact Hk].
  - intros H. apply plus_sound in H as (x & rest & -> & Hne & Hx & Hk).
    exists x, rest, cap. repeat split; [now constructor | exact Hk].
  - intros H. apply IH1 in H as (x1 & rest1 & cap1 & -> & M1 & H).
    apply IH2 in H as (x2 & rest & cap2 & -> & M2 & Hk).
    exists (x1 ++ x2), rest, cap2. rewrite append_assoc.
    repeat split; [now constructor | exact Hk].
  - destruct (run r s cap k) as [x|] eqn:E.
    + intros [= ->]. apply IH in E as (x & rest & cap' & -> & M & Hk).
      exists x, rest, cap'. repeat split; [now constructor | exact Hk].
    + intros Hk. exists "", s, cap.
      repeat split; [apply matches_opt_none | exact Hk].
  - intros H. apply IH in H as (x & rest & cap' & -> & M & Hk).
    eexists x, rest, _. repeat split; [now constructor | exact Hk].
  - destruct s; [|discriminate].
    intros Hk. exists "", "", cap. repeat split; [constructor | exact Hk].
Qed.

Lemma search_sound (r : regex) (s : string) (cap : option string) :
  search r s = Some cap ->
  exists pre x rest, s = pre ++ x ++ rest /\ matches r x rest.
Proof.
  induction s as [|c s IH]; simpl.
  - destruct (exec_at r "") as [cap'|] eqn:E; [|discriminate]. intros _.
    apply run_sound in E as (x & rest & _ & Hs & M & _).
    now exists "", x, rest.
  - destruct (exec_at r (String c s)) as [cap'|] eqn:E.
    + intros _. apply run_sound in E as (x & rest & _ & Hs & M & _).
      now exists "", x, rest.
    + intros H. apply IH in H as (pre & x & rest & -> & M).
      now exists (String c pre), x, rest.
Qed.

Ltac invert_match H :=
  inversion H; subst; clear H.

(** A match of the public-id pattern has the shape the pattern spells. *)
Lemma publicIdPattern_shape (x rest : string) :
  matches publicIdPattern x rest ->
  exists ver body ext,
    x ++ rest = "/upload/" ++ ver ++ body ++ "." ++ ext
    /\ version_segment ver
    /\ body <> ""
    /\ every (accepts Any) body = true
    /\ ext <> ""
    /\ every (not_char ".") ext = true.
Proof.
  unfold publicIdPattern. cbn [lits]. intros H.
  repeat match goal with
         | M : matches (Seq _ _) _ _ |- _ => invert_match M
         | M : matches (Chr _) _ _ |- _ => invert_match M
         | M : matches (Group _) _ _ |- _ => invert_match M
         | M : matches (Plus _) _ _ |- _ => invert_match M
         | M : matches Eos _ _ |- _ => invert_match M
         | E : accepts (Lit _) _ = true |- _ => apply Ascii.eqb_eq in E; subst
         end.
  match goal with
  | M : matches (Opt _) ?ver _, Hb : every (accepts Any) ?body = true,
    He : every (accepts (NotLit ".")) ?ext = true |- _ =>
      exists ver, body, ext
  end.
  rewrite !append_empty_r. cbn [String.append]. rewrite ?append_assoc. cbn [String.append].
  repeat split; try assumption.
  match goal with
  | M : matches (Opt _) _ _ |- _ => invert_match M
  end.
  - right.
    repeat match goal with
           | M : matches (Seq _ _) _ _ |- _ => invert_match M
           | M : matches (Chr _) _ _ |- _ => invert_match M
           | M : matches (Plus _) _ _ |- _ => invert_match M
           | E : accepts (Lit _) _ = true |- _ => apply Ascii.eqb_eq in E; subst
           end.
    eexists. repeat split; eassumption.
  - now left.
Qed.

(** A pattern without a group hands the content of group 1 on as it got
    it. *)
Lemma run_group_free {R} (r : regex) :
  group_free r = true ->
  forall (s : string) (cap : option string)
         (k : string -> option string -> option R) (v : R),
    run r s cap k = Some v -> exists rest, k rest cap = Some v.
Proof.
  induction r as [p | p | r1 IH1 r2 IH2 | r IH | r IH |]; simpl; intros G s cap k v.
  - destruct s as [|c s]; [discriminate |].
    destruct (accepts p c); [now eauto | discriminate].
  - intros H. apply plus_sound in H as (x & rest & _ & _ & _ & Hk). now eauto.
  - apply andb_true_iff in G as [G1 G2].
    intros H. apply (IH1 G1) in H as (rest1 & H).
    now apply (IH2 G2) in H.
  - destruct (run r s cap k) as [x|] eqn:E.
    + intros [= ->]. now apply (IH G) in E.
    + now eauto.
  - discriminate G.
  - destruct s; [now eauto | discriminate].
Qed.

(** Completeness of backtracking: if the pattern matches a prefix of the
    input and the rest of the pattern accepts what follows, the matcher
    does not fail. *)
Lemma plus_complete {R} (p : cclass) (x rest : string) (k : string -> option R) :
  x <> "" -> every (accepts p) x = true -> k rest <> None ->
  plus p (x ++ rest) k <> None.
Proof.
  intros Hne Hx Hk. induction x as [|c x IH]; [congruence |].
  simpl in Hx |- *. apply andb_true_iff in Hx as [Hc Hx]. rewrite Hc.
  destruct x as [|d x].
  - simpl. destruct (plus p rest k); [discriminate | exact Hk].
  - specialize (IH ltac:(discriminate) Hx).
    destruct (plus p (String d x ++ rest) k); [discriminate | congruence].
Qed.

Lemma run_complete {R} (r : regex) (x rest : string) :
  matches r x rest ->
  forall (cap : option string) (k : string -> option string -> option R),
    (forall cap', k rest cap' <> None) ->
    run r (x ++ rest) cap k <> None.
Proof.
  induction 1 as [p c rest Hc | p x rest Hne Hx | r1 r2 x1 x2 rest _ IH1 _ IH2
                 | r x rest _ IH | r rest | r x rest _ IH |];
    intros cap k Hk; simpl.
  - rewrite Hc. apply Hk.
  - apply plus_complete; [exact Hne | exact Hx | apply Hk].
  - rewrite append_assoc. apply IH1. intros cap'. now apply IH2.
  - destruct (run r (x ++ rest) cap k) eqn:E; [discriminate |].
    now elim (IH cap k Hk).
  - destruct (run r rest cap k); [discriminate | apply Hk].
  - apply IH. intros _. apply Hk.
  - apply Hk.
Qed.

Lemma search_complete (r : regex) (pre x rest : string) :
  matches r x rest -> search r (pre ++ x ++ rest) <> None.
Proof.
  intros M.
  assert (H : exec_at r (x ++ rest) <> None)
    by (apply run_complete; [exact M | discriminate]).
  induction pre as [|c pre IH]; simpl.
  - destruct (exec_at r (x ++ rest)) eqn:E; [|congruence].
    destruct (x ++ rest); simpl; rewrite E; discriminate.
  - destruct (exec_at r (String c (pre ++ x ++ rest))); [discriminate | exact IH].
Qed.

Lemma matches_lits (s : string) (r : regex) (x rest : string) :
  matches r x rest -> matches (lits s r) (s ++ x) rest.
Proof.
  intros M. induction s as [|c s IH]; simpl; [exact M |].
  change (String c (s ++ x)) with (String c "" ++ (s ++ x)).
  apply matches_seq; [|exact IH].
  constructor. simpl. apply Ascii.eqb_refl.
Qed.

(** ** The public-id extractor *)

Lemma search_matches_pattern (url : string) (cap : option string) :
  search publicIdPattern url = Some cap -> matches_pattern url.
Proof.
  intros H. apply search_sound in H as (pre & x & rest & -> & M).
  apply publicIdPattern_shape in M as (ver & body & ext & E & Hrest).
  exists pre, ver, body, ext. now rewrite E.
Qed.

(** A match of the public-id pattern always fills group 1, with a non-empty
    string. *)
Lemma run_seq_group_free {R} (r1 r2 : regex) (s : string) (cap : option string)
    (k : string -> option string -> option R) (v : R) :
  group_free r1 = true ->
  run (Seq r1 r2) s cap k = Some v ->
  exists s', run r2 s' cap k = Some v.
Proof.
  intros G H. cbn [run] in H.
  exact (run_group_free r1 G s cap (fun s' cap' => run r2 s' cap' k) v H).
Qed.

Lemma exec_at_capture (s : string) (cap : option string) :
  exec_at publicIdPattern s = Some cap -> exists id, cap = Some id /\ id <> "".
Proof.
  unfold exec_at, publicIdPattern. cbn [lits]. intros H.
  do 9 (apply run_seq_group_free in H as (? & H); [|reflexivity]).
  match type of H with
  | run (Seq (Group _) ?tail) ?s1 _ ?k = _ =>
      change (plus Any s1
                (fun s' => run tail s'
                             (Some (substring 0 (String.length s1 - String.length s') s1)) k)
              = Some cap) in H
  end.
  apply plus_sound in H as (id & rest & -> & Hne & _ & H).
  apply run_group_free in H as (? & H); [|reflexivity].
  injection H as <-.
  rewrite length_append, Nat.add_sub, substring_append_exact. now exists id.
Qed.

Lemma search_capture (url : string) (cap : option string) :
  search publicIdPattern url = Some cap -> exists id, cap = Some id /\ id <> "".
Proof.
  induction url as [|c url IH]; cbn [search].
  - destruct (exec_at publicIdPattern "") eqn:E; [|discriminate].
    intros [= <-]. exact (exec_at_capture _ _ E).
  - destruct (exec_at publicIdPattern (String c url)) eqn:E; [|exact IH].
    intros [= <-]. exact (exec_at_capture _ _ E).
Qed.

Lemma version_segment_matches (ver rest : string) :
  version_segment ver ->
  matches (Opt (Seq (Chr (Lit "v")) (Seq (Plus Digit) (Chr (Lit "/"))))) ver rest.
Proof.
  intros [-> | (ds & Hne & Hds & ->)]; [apply matches_opt_none |].
  apply matches_opt_some.
  change ("v" ++ ds ++ "/") with (String "v" "" ++ ds ++ String "/" "").
  apply matches_seq; [now constructor |].
  apply matches_seq; [now constructor | now constructor].
Qed.

Lemma matches_pattern_search (url : string) :
  matches_pattern url -> search publicIdPattern url <> None.
Proof.
  intros (pre & ver & body & ext & -> & Hver & Hbody & Hline & Hext & Hdot).
  rewrite <- (append_empty_r ext).
  replace ("/upload/" ++ ver ++ body ++ "." ++ ext ++ "")
    with (("/upload/" ++ ver ++ body ++ "." ++ ext ++ "") ++ "")
    by apply append_empty_r.
  apply search_complete. unfold publicIdPattern.
  apply matches_lits.
  apply matches_seq; [now apply version_segment_matches |].
  apply matches_seq; [now repeat constructor |].
  change ("." ++ ext ++ "") with (String "." "" ++ ext ++ "").
  apply matches_seq; [now constructor |].
  apply matches_seq; [now constructor | constructor].
Qed.

(** X27.  The extractor returns a non-empty string exactly on the inputs
    that have the shape of the pattern. *)
Lemma extract_nonempty_iff (url : string) :
  extractPublicIdFromUrl url <> "" <-> matches_pattern url.
Proof.
  unfold extractPublicIdFromUrl. split.
  - destruct (search publicIdPattern url) as [cap|] eqn:E; [|congruence].
    intros _. exact (search_matches_pattern url cap E).
  - intros M. apply matches_pattern_search in M.
    destruct (search publicIdPattern url) as [cap|] eqn:E; [|congruence].
    apply search_capture in E as (id & -> & Hid). exact Hid.
Qed.

(** C7.  [extractPublicIdFromUrl] is a total function to strings, and on
    every input that does not have the shape of the fixed pattern its result
    is the empty string. *)
Theorem c7_no_match_gives_empty (url : string) :
  ~ matches_pattern url -> extractPublicIdFromUrl url = "".
Proof.
  intros Hno. unfold extractPublicIdFromUrl.
  destruct (search publicIdPattern url) as [cap|] eqn:E; [|reflexivity].
  elim Hno. exact (search_matches_pattern url cap E).
Qed.

Lemma c7_no_match_gives_empty_witness :
  ~ matches_pattern "https://example.com/images/cat.jpg"
  /\ extractPublicIdFromUrl "https://example.com/images/cat.jpg" = "".
Proof.
  assert (Hno : ~ matches_pattern "https://example.com/images/cat.jpg").
  { intros (pre & ver & body & ext & E & _).
    assert (H : includes "https://example.com/images/cat.jpg" "/upload/" = true).
    { rewrite E. apply includes_append. }
    vm_compute in H. discriminate H. }
  split; [exact Hno |].
  exact (c7_no_match_gives_empty "https://example.com/images/cat.jpg" Hno).
Defined.

Lemma plus_none {R} (p : cclass) (s : string) (k : string -> option R) :
  (forall t1 t2, t1 <> "" -> s = t1 ++ t2 -> k t2 = None) ->
  plus p s k = None.
Proof.
  induction s as [|c s IH]; intros Hk; simpl; [reflexivity |].
  destruct (accepts p c); [|reflexivity].
  rewrite IH.
  - apply (Hk (String c "") s); [discriminate | reflexivity].
  - intros t1 t2 Hne ->. apply (Hk (String c t1) t2); [discriminate | reflexivity].
Qed.

(** Greedy repetition stops at the last place where the rest of the pattern
    can go on. *)
Lemma plus_last {R} (p : cclass) (body tail : string) (k : string -> option R) (v : R) :
  body <> "" ->
  every (accepts p) body = true ->
  (forall t1 t2, t1 <> "" -> tail = t1 ++ t2 -> k t2 = None) ->
  k tail = Some v ->
  plus p (body ++ tail) k = Some v.
Proof.
  intros Hne Hbody Hlater Hk.
  induction body as [|c body IH]; [congruence |].
  simpl in Hbody |- *. apply andb_true_iff in Hbody as [Hc Hbody]. rewrite Hc.
  destruct body as [|d body].
  - simpl. rewrite (plus_none p tail k Hlater). exact Hk.
  - rewrite IH; [reflexivity | discriminate | exact Hbody].
Qed.

Lemma plus_all {R} (p : cclass) (s : string) (k : string -> option R) (v : R) :
  s <> "" -> every (accepts p) s = true -> k "" = Some v -> plus p s k = Some v.
Proof.
  intros Hne Hs Hk. rewrite <- (append_empty_r s).
  apply plus_last; try assumption.
  intros t1 t2 Ht1 E. destruct t1; [congruence | discriminate E].
Qed.

Lemma suffix_every (p : ascii -> bool) (t1 t2 s : string) :
  s = t1 ++ t2 -> every p s = true -> every p t2 = true.
Proof. intros ->. rewrite every_append. intros H. now apply andb_true_iff in H. Qed.

(** At [/upload/], when no version segment follows, group 1 is everything
    up to the last dot. *)
Lemma exec_at_upload (c : ascii) (b ext : string) :
  Ascii.eqb c "v" = false ->
  every (accepts Any) (String c b) = true ->
  ext <> "" ->
  every (not_char ".") ext = true ->
  exec_at publicIdPattern ("/upload/" ++ String c b ++ "." ++ ext)
  = Some (Some (String c b)).
Proof.
  intros Hv Hbody Hne Hext.
  unfold exec_at, publicIdPattern.
  cbn [lits run String.append accepts Ascii.eqb Bool.eqb].
  rewrite Hv.
  apply (plus_last Any (String c b) (String "." ext));
    [discriminate | exact Hbody | |].
  - intros t1 t2 Ht1 E.
    destruct t1 as [|x t1]; [congruence |]. injection E as <- E.
    apply (suffix_every _ _ _ _ E) in Hext.
    destruct t2 as [|y t2]; [reflexivity |].
    simpl in Hext. apply andb_true_iff in Hext as [Hy _].
    unfold not_char in Hy. apply negb_true_iff in Hy. now rewrite Hy.
  - cbn [String.append Ascii.eqb Bool.eqb].
    apply plus_all; [exact Hne | exact Hext |].
    do 2 f_equal.
    change (String c (b ++ String "." ext)) with (String c b ++ String "." ext).
    rewrite length_append, Nat.add_sub.
    apply substring_append_exact.
Qed.

Lemma search_found (r : regex) (s : string) (cap : option string) :
  exec_at r s = Some cap -> search r s = Some cap.
Proof. intros H. destruct s; simpl; now rewrite H. Qed.

(** No match starts inside the host and cloud-name part of a display URL. *)
Lemma search_display_prefix (tail : string) :
  search publicIdPattern ("https://res.cloudinary.com/your-cloud-name/image" ++ tail)
  = search publicIdPattern tail.
Proof. reflexivity. Qed.

Lemma transformationString_head (o : Options) :
  exists c t, transformationString o = String c t /\ Ascii.eqb c "v" = false.
Proof.
  rewrite transformationString_join, directives_ordered.
  unfold ordered_directives. cbv zeta.
  destruct (truthy (number_value (width o))), (truthy (number_value (height o))),
    (truthy (quality_value (with_default QAuto (quality o))));
    cbn [orb app]; simpl; eexists _, _; split; reflexivity.
Qed.

Lemma one_line_number (x : number) : every (accepts Any) (print_number x) = true.
Proof.
  apply every_printed. intros c H.
  unfold accepts, line_terminator. apply negb_true_iff, orb_false_iff.
  split; apply Ascii.eqb_neq; intros ->; discriminate H.
Qed.

Lemma transformationString_one_line (o : Options) :
  every (accepts Any) (transformationString o) = true.
Proof.
  rewrite transformationString_join, directives_ordered, every_append.
  apply andb_true_iff. split; [|reflexivity].
  apply every_join; [reflexivity |].
  unfold ordered_directives. cbv zeta.
  apply Forall_app; split; [|apply Forall_app; split;
    [|apply Forall_app; split; [|apply Forall_app; split]]].
  - apply Forall_if_singleton. intros _.
    destruct (width o); simpl; [apply one_line_number | reflexivity].
  - apply Forall_if_singleton. intros _.
    destruct (height o); simpl; [apply one_line_number | reflexivity].
  - apply Forall_if_singleton. intros _.
    now destruct (with_default CFill (crop o)).
  - apply Forall_if_singleton. intros _.
    destruct (with_default QAuto (quality o)); simpl;
      [reflexivity | apply one_line_number].
  - constructor; [|constructor]. now destruct (with_default FAuto (format o)).
Qed.

(** C1.  The extractor does not give back the asset id of a built URL.
    For the asset id [abc123] and default options the builder returns
    [https://res.cloudinary.com/your-cloud-name/image/upload/q_auto,f_auto/abc123];
    on that URL followed by [.jpg] the extractor returns
    [q_auto,f_auto/abc123], the directives together with the asset id, and
    not [abc123]: the pattern steps over a version segment [v<digits>/] and
    over nothing else that may stand between [/upload/] and the public
    id. *)
Theorem c1_extractor_keeps_directives :
  getOptimizedImageUrl "abc123" no_options ++ ".jpg"
  = "https://res.cloudinary.com/your-cloud-name/image/upload/q_auto,f_auto/abc123.jpg"
  /\ extractPublicIdFromUrl
       "https://res.cloudinary.com/your-cloud-name/image/upload/q_auto,f_auto/abc123.jpg"
     = "q_auto,f_auto/abc123"
  /\ extractPublicIdFromUrl (getOptimizedImageUrl "abc123" no_options ++ ".jpg")
     <> "abc123".
Proof.
  split; [|split]; vm_compute; [reflexivity | reflexivity | discriminate].
Qed.

(** The same happens for every options value: on a built URL followed by
    [.<ext>], the asset id being free of line terminators and the extension
    non-empty and free of dots, what the extractor returns is the
    transformation string followed by the asset id. *)
Lemma extract_keeps_transformationString (assetId ext : string) (o : Options) :
  every (accepts Any) assetId = true ->
  ext <> "" ->
  every (not_char ".") ext = true ->
  extractPublicIdFromUrl (getOptimizedImageUrl assetId o ++ "." ++ ext)
  = transformationString o ++ assetId
  /\ transformationString o ++ assetId <> assetId.
Proof.
  intros Hid Hne Hext.
  destruct (transformationString_head o) as (c & t & Ht & Hv).
  pose proof (transformationString_one_line o) as Hline.
  split.
  - unfold extractPublicIdFromUrl, getOptimizedImageUrl.
    replace (("https://res.cloudinary.com/" ++ CLOUDINARY_CLOUD_NAME ++ "/image/upload/"
                ++ transformationString o ++ assetId) ++ "." ++ ext)
      with ("https://res.cloudinary.com/your-cloud-name/image"
              ++ "/upload/" ++ (transformationString o ++ assetId) ++ "." ++ ext).
    + rewrite search_display_prefix.
      rewrite Ht in Hline |- *.
      change (String c t ++ assetId) with (String c (t ++ assetId)).
      rewrite (search_found _ _ (Some (String c (t ++ assetId)))); [reflexivity |].
      apply exec_at_upload; try assumption.
      change (String c (t ++ assetId)) with (String c t ++ assetId).
      now rewrite every_append, Hline, Hid.
    + unfold CLOUDINARY_CLOUD_NAME. cbn [String.append].
      now rewrite !append_assoc.
  - intros E. apply (f_equal String.length) in E.
    rewrite length_append, Ht in E. simpl in E. lia.
Qed.

(** * Further properties *)

(** ** The URL builder and the extractor *)

Lemma append_cancel_l (a b c : string) : a ++ b = a ++ c -> b = c.
Proof. induction a as [|x a IH]; simpl; [auto | intros [= H]; auto]. Qed.

(** X1.  Without a usable dimension the crop mode has no effect: when width
    and height are each absent or 0, any two crop settings give the same
    URL. *)
Theorem crop_ignored_without_dimension
    (publicId : string) (w h : option number) (q : option Quality)
    (f : option Format) (c1 c2 : option Crop) :
  (w = None \/ w = Some (integer 0)) ->
  (h = None \/ h = Some (integer 0)) ->
  getOptimizedImageUrl publicId
    {| width := w; height := h; quality := q; format := f; crop := c1 |}
  = getOptimizedImageUrl publicId
      {| width := w; height := h; quality := q; format := f; crop := c2 |}.
Proof.
  intros Hw Hh.
  unfold getOptimizedImageUrl, transformationString, transformations.
  cbn [width height quality format crop].
  rewrite !truthy_and, !truthy_crop, !truthy_or.
  destruct Hw as [-> | ->], Hh as [-> | ->]; reflexivity.
Qed.

Lemma crop_ignored_without_dimension_witness :
  (Some (integer 0) = None \/ Some (integer 0) = Some (integer 0))
  /\ (@None number = None \/ @None number = Some (integer 0))
  /\ getOptimizedImageUrl "abc123"
       {| width := Some (integer 0); height := None; quality := None; format := None;
          crop := Some CScale |}
     = getOptimizedImageUrl "abc123"
         {| width := Some (integer 0); height := None; quality := None; format := None;
            crop := Some CFit |}.
Proof.
  split; [now right | split; [now left |]].
  apply crop_ignored_without_dimension; [now right | now left].
Defined.

(** X2.  A width of 0 is treated as no width, and a height of 0 as no
    height: the URL is the one built without that property. *)
Theorem zero_dimension_as_absent
    (publicId : string) (d : option number) (q : option Quality)
    (f : option Format) (c : option Crop) :
  getOptimizedImageUrl publicId
    {| width := Some (integer 0); height := d; quality := q; format := f; crop := c |}
  = getOptimizedImageUrl publicId
      {| width := None; height := d; quality := q; format := f; crop := c |}
  /\ getOptimizedImageUrl publicId
       {| width := d; height := Some (integer 0); quality := q; format := f; crop := c |}
     = getOptimizedImageUrl publicId
         {| width := d; height := None; quality := q; format := f; crop := c |}.
Proof.
  split.
  - reflexivity.
  - unfold getOptimizedImageUrl, transformationString, transformations, dimensions.
    cbn [width height quality format crop].
    rewrite !truthy_and, !truthy_or. cbn [number_value truthy Z.eqb negb].
    rewrite !orb_false_r. unfold or.
    destruct (truthy (number_value d)); reflexivity.
Qed.

(** X3.  For fixed options the URL determines the asset id: two asset ids
    with the same URL are equal. *)
Theorem url_determines_publicId (p1 p2 : string) (o : Options) :
  getOptimizedImageUrl p1 o = getOptimizedImageUrl p2 o -> p1 = p2.
Proof.
  unfold getOptimizedImageUrl. intros H.
  repeat apply append_cancel_l in H. exact H.
Qed.

Lemma url_determines_publicId_witness :
  getOptimizedImageUrl "abc123" no_options = getOptimizedImageUrl "abc123" no_options
  /\ "abc123" = "abc123".
Proof.
  split; [reflexivity |].
  exact (url_determines_publicId "abc123" "abc123" no_options eq_refl).
Defined.

(** Integers of at most 21 digits are printed without a decimal point. *)
Lemma dotless_whole (negative : bool) (s : positive) (n : Z) :
  (Z.of_nat (String.length (digits s)) <= n <= 21)%Z ->
  dotless (Finite negative s n) = true.
Proof.
  intros [Hk Hn]. unfold dotless, print_number, print_finite. cbv zeta.
  apply Z.leb_le in Hk, Hn. rewrite Hk, Hn. cbn [andb].
  rewrite !every_append, every_zeros by reflexivity.
  assert (Hd : every (not_char ".") (digits s) = true).
  { eapply every_weaken; [|apply every_string_of_uint].
    intros c H. unfold not_char. apply negb_true_iff, Ascii.eqb_neq.
    intros ->. discriminate H. }
  rewrite Hd. now destruct negative.
Qed.

(** When the numbers among the options are printed without a decimal
    point, the transformation string has no dot. *)
Lemma transformationString_dotless (o : Options) :
  forallb dotless (numbers o) = true ->
  every (not_char ".") (transformationString o) = true.
Proof.
  intros H. unfold numbers in H. rewrite !forallb_app in H.
  apply andb_true_iff in H as [Hw H]. apply andb_true_iff in H as [Hh Hq].
  rewrite transformationString_join, directives_ordered, every_append.
  apply andb_true_iff. split; [|reflexivity].
  apply every_join; [reflexivity |].
  unfold ordered_directives. cbv zeta.
  apply Forall_app; split; [|apply Forall_app; split;
    [|apply Forall_app; split; [|apply Forall_app; split]]].
  - apply Forall_if_singleton. intros _.
    destruct (width o) as [x|]; [|reflexivity].
    cbn [forallb] in Hw. rewrite andb_true_r in Hw. exact Hw.
  - apply Forall_if_singleton. intros _.
    destruct (height o) as [x|]; [|reflexivity].
    cbn [forallb] in Hh. rewrite andb_true_r in Hh. exact Hh.
  - apply Forall_if_singleton. intros _.
    now destruct (with_default CFill (crop o)).
  - apply Forall_if_singleton. intros _.
    destruct (quality o) as [[|x]|]; [reflexivity | | reflexivity].
    cbn [forallb] in Hq. rewrite andb_true_r in Hq. exact Hq.
  - constructor; [|constructor]. now destruct (with_default FAuto (format o)).
Qed.

Lemma dot_free_no_match (s : string) :
  every (not_char ".") s = true -> search publicIdPattern s = None.
Proof.
  intros Hs. destruct (search publicIdPattern s) as [cap|] eqn:E; [|reflexivity].
  apply search_matches_pattern in E as (pre & ver & body & ext & -> & _).
  rewrite !every_append in Hs.
  do 4 (apply andb_true_iff in Hs as [_ Hs]).
  simpl in Hs. discriminate Hs.
Qed.

(** X4.  Applied to a built URL as it is, with no extension added, the
    extractor returns the empty string whenever the asset id has no dot and
    the numbers among the options are printed without a decimal point, as
    integers of at most 21 digits are: nothing after [/upload/] can then
    serve as the extension. *)
Theorem extract_of_built_url_without_extension (publicId : string) (o : Options) :
  forallb dotless (numbers o) = true ->
  every (not_char ".") publicId = true ->
  extractPublicIdFromUrl (getOptimizedImageUrl publicId o) = "".
Proof.
  intros Ho Hid. unfold extractPublicIdFromUrl, getOptimizedImageUrl.
  change ("https://res.cloudinary.com/" ++ CLOUDINARY_CLOUD_NAME ++ "/image/upload/"
            ++ transformationString o ++ publicId)
    with ("https://res.cloudinary.com/your-cloud-name/image"
            ++ "/upload/" ++ transformationString o ++ publicId).
  rewrite search_display_prefix, dot_free_no_match; [reflexivity |].
  rewrite !every_append, Hid, andb_true_r.
  apply andb_true_iff. split; [reflexivity |].
  now apply transformationString_dotless.
Qed.

Lemma extract_of_built_url_without_extension_witness :
  forallb dotless
    (numbers {| width := Some (integer 400); height := None;
                quality := Some (QNumber (integer 80));
                format := Some FPng; crop := Some CFit |}) = true
  /\ every (not_char ".") "uploads/17_cat" = true
  /\ extractPublicIdFromUrl
       (getOptimizedImageUrl "uploads/17_cat"
          {| width := Some (integer 400); height := None;
             quality := Some (QNumber (integer 80));
             format := Some FPng; crop := Some CFit |}) = "".
Proof.
  split; [reflexivity | split; [reflexivity |]].
  now apply extract_of_built_url_without_extension.
Defined.

(** A width with a fraction brings a dot into the URL: for the width 1.5
    the extractor takes what follows the dot for the extension and returns
    [w_1]. *)
Example extract_of_fractional_width :
  getOptimizedImageUrl "abc123"
    {| width := Some (Finite false 15 1); height := None; quality := None;
       format := None; crop := None |}
  = "https://res.cloudinary.com/your-cloud-name/image/upload/w_1.5,c_fill,q_auto,f_auto/abc123"
  /\ extractPublicIdFromUrl
       (getOptimizedImageUrl "abc123"
          {| width := Some (Finite false 15 1); height := None; quality := None;
             format := None; crop := None |})
     = "w_1".
Proof. split; vm_compute; reflexivity. Qed.

Lemma prefix_within (n a b : string) :
  (String.length n <= String.length a)%nat -> prefix n (a ++ b) = prefix n a.
Proof.
  revert a. induction n as [|x n IH]; intros a Hlen.
  - now rewrite !prefix_empty.
  - destruct a as [|y a]; simpl in Hlen; [lia |].
    simpl. destruct (ascii_dec x y); [apply IH; lia | reflexivity].
Qed.

Lemma run_lits_fail {R} (n : string) (r : regex) (s : string) (cap : option string)
    (k : string -> option string -> option R) :
  prefix n s = false -> run (lits n r) s cap k = None.
Proof.
  revert s. induction n as [|x n IH]; intros s H.
  - now rewrite prefix_empty in H.
  - destruct s as [|y s]; [reflexivity |].
    simpl in H |- *. destruct (ascii_dec x y) as [->|N].
    + rewrite Ascii.eqb_refl. now apply IH.
    + destruct (Ascii.eqb_spec y x) as [->|_]; [now elim N | reflexivity].
Qed.

(** The search passes over a prefix in which no [/upload/] begins. *)
Lemma search_skip (pre rest : string) :
  includes (pre ++ "/upload") "/upload/" = false ->
  search publicIdPattern (pre ++ "/upload/" ++ rest)
  = search publicIdPattern ("/upload/" ++ rest).
Proof.
  induction pre as [|c pre IH]; [reflexivity |].
  intros H. change (String c pre ++ "/upload") with (String c (pre ++ "/upload")) in H.
  cbn [includes] in H. apply orb_false_iff in H as [Hhere Hlater].
  change (String c pre ++ "/upload/" ++ rest)
    with (String c (pre ++ "/upload/" ++ rest)).
  cbn [search]. rewrite <- (IH Hlater).
  replace (exec_at publicIdPattern (String c (pre ++ "/upload/" ++ rest)))
    with (@None (option string)); [reflexivity |].
  symmetry. unfold exec_at, publicIdPattern. apply run_lits_fail.
  replace (String c (pre ++ "/upload/" ++ rest))
    with (String c (pre ++ "/upload") ++ "/" ++ rest)
    by (simpl; now rewrite append_assoc).
  rewrite prefix_within; [exact Hhere |].
  simpl. rewrite length_append. simpl. lia.
Qed.

(** A greedy repetition that runs into a character it does not accept stops
    there, if the rest of the pattern goes on from there. *)
Lemma plus_until {R} (p : cclass) (body : string) (stop : ascii) (tail : string)
    (k : string -> option R) (v : R) :
  body <> "" ->
  every (accepts p) body = true ->
  accepts p stop = false ->
  k (String stop tail) = Some v ->
  plus p (body ++ String stop tail) k = Some v.
Proof.
  intros Hne Hbody Hstop Hk.
  induction body as [|c body IH]; [congruence |].
  simpl in Hbody |- *. apply andb_true_iff in Hbody as [Hc Hbody]. rewrite Hc.
  destruct body as [|d body].
  - simpl. now rewrite Hstop.
  - rewrite IH; [reflexivity | discriminate | exact Hbody].
Qed.

(** Group 1 and the extension: the id is everything up to the last dot. *)
Lemma run_id_and_extension (id ext : string) (cap : option string) :
  id <> "" ->
  every (accepts Any) id = true ->
  ext <> "" ->
  every (not_char ".") ext = true ->
  run (Seq (Group (Plus Any))
         (Seq (Chr (Lit ".")) (Seq (Plus (NotLit ".")) Eos)))
    (id ++ "." ++ ext) cap (fun _ cap' => Some cap')
  = Some (Some id).
Proof.
  intros Hid Hline Hne Hext. cbn [run].
  apply (plus_last Any id (String "." ext)); [exact Hid | exact Hline | |].
  - intros t1 t2 Ht1 E.
    destruct t1 as [|x t1]; [congruence |]. injection E as <- E.
    apply (suffix_every _ _ _ _ E) in Hext.
    destruct t2 as [|y t2]; [reflexivity |].
    simpl in Hext. apply andb_true_iff in Hext as [Hy _].
    unfold not_char in Hy. apply negb_true_iff in Hy.
    cbn [accepts]. now rewrite Hy.
  - cbn [accepts Ascii.eqb Bool.eqb].
    apply plus_all; [exact Hne | exact Hext |].
    do 2 f_equal.
    rewrite length_append, Nat.add_sub.
    apply substring_append_exact.
Qed.

Lemma run_seq {R} (r1 r2 : regex) (s : string) (cap : option string)
    (k : string -> option string -> option R) :
  run (Seq r1 r2) s cap k = run r1 s cap (fun s' cap' => run r2 s' cap' k).
Proof. reflexivity. Qed.

Lemma run_chr {R} (p : cclass) (c : ascii) (s : string) (cap : option string)
    (k : string -> option string -> option R) :
  accepts p c = true -> run (Chr p) (String c s) cap k = k s cap.
Proof. intros H. simpl. now rewrite H. Qed.

Lemma run_plus {R} (p : cclass) (s : string) (cap : option string)
    (k : string -> option string -> option R) :
  run (Plus p) s cap k = plus p s (fun s' => k s' cap).
Proof. reflexivity. Qed.

Lemma run_lits_ok {R} (n : string) (r : regex) (s : string) (cap : option string)
    (k : string -> option string -> option R) :
  run (lits n r) (n ++ s) cap k = run r s cap k.
Proof.
  induction n as [|x n IH]; [reflexivity |].
  cbn [lits String.append]. rewrite run_seq, run_chr by apply Ascii.eqb_refl.
  exact IH.
Qed.

Lemma run_opt_some {R} (r : regex) (s : string) (cap : option string)
    (k : string -> option string -> option R) (v : R) :
  run r s cap k = Some v -> run (Opt r) s cap k = Some v.
Proof. intros H. cbn [run]. now rewrite H. Qed.

(** At [/upload/] followed by a version segment, group 1 is what lies
    between the version segment and the last dot. *)
Lemma exec_at_versioned (ds id ext : string) :
  ds <> "" ->
  every is_digit ds = true ->
  id <> "" ->
  every (accepts Any) id = true ->
  ext <> "" ->
  every (not_char ".") ext = true ->
  exec_at publicIdPattern ("/upload/" ++ ("v" ++ ds ++ "/") ++ id ++ "." ++ ext)
  = Some (Some id).
Proof.
  intros Hds Hdigits Hid Hline Hne Hext.
  unfold exec_at, publicIdPattern.
  rewrite run_lits_ok, run_seq.
  apply run_opt_some.
  replace (("v" ++ ds ++ "/") ++ id ++ "." ++ ext)
    with (String "v" (ds ++ String "/" (id ++ "." ++ ext)))
    by (simpl; now rewrite append_assoc).
  rewrite run_seq, run_chr by reflexivity.
  rewrite run_seq, run_plus.
  apply plus_until; [exact Hds | exact Hdigits | reflexivity |].
  rewrite run_chr by reflexivity.
  now apply run_id_and_extension.
Qed.

(** X5.  The URL an upload returns gives back its public id: on
    [<prefix>/upload/v<digits>/<id>.<ext>], and on [<prefix>/upload/<id>.<ext>]
    when the id does not begin with [v], the extractor returns the id,
    folders and inner dots included, provided no [/upload/] begins inside
    the prefix, the id is non-empty and free of line terminators, and the
    extension is non-empty and free of dots. *)
Theorem extract_of_upload_url (pre ver id ext : string) :
  includes (pre ++ "/upload") "/upload/" = false ->
  version_segment ver ->
  (ver = "" -> prefix "v" id = false) ->
  id <> "" ->
  every (accepts Any) id = true ->
  ext <> "" ->
  every (not_char ".") ext = true ->
  extractPublicIdFromUrl (pre ++ "/upload/" ++ ver ++ id ++ "." ++ ext) = id.
Proof.
  intros Hpre Hver Hv Hid Hline Hne Hext.
  unfold extractPublicIdFromUrl. rewrite search_skip by exact Hpre.
  rewrite (search_found _ _ (Some id)); [reflexivity |].
  destruct Hver as [-> | (ds & Hds & Hdigits & ->)].
  - destruct id as [|c b]; [congruence |].
    specialize (Hv eq_refl). simpl in Hv.
    apply exec_at_upload; try assumption.
    destruct (Ascii.eqb_spec c "v") as [->|_]; [|reflexivity].
    simpl in Hv. now rewrite prefix_empty in Hv.
  - now apply exec_at_versioned.
Qed.

Lemma extract_of_upload_url_witness :
  includes ("https://res.cloudinary.com/demo/image" ++ "/upload") "/upload/" = false
  /\ version_segment "v1700000000/"
  /\ ("v1700000000/" = "" -> prefix "v" "uploads/17_cat.final" = false)
  /\ "uploads/17_cat.final" <> ""
  /\ every (accepts Any) "uploads/17_cat.final" = true
  /\ "png" <> ""
  /\ every (not_char ".") "png" = true
  /\ extractPublicIdFromUrl
       ("https://res.cloudinary.com/demo/image" ++ "/upload/" ++ "v1700000000/"
          ++ "uploads/17_cat.final" ++ "." ++ "png")
     = "uploads/17_cat.final".
Proof.
  assert (Hver : version_segment "v1700000000/").
  { right. exists "1700000000". split; [discriminate | split; reflexivity]. }
  split; [reflexivity |]. split; [exact Hver |].
  split; [discriminate |]. split; [discriminate |].
  split; [reflexivity |]. split; [discriminate |]. split; [reflexivity |].
  apply extract_of_upload_url;
    [reflexivity | exact Hver | discriminate | discriminate | reflexivity
    | discriminate | reflexivity].
Defined.

(** ** The Cloudinary upload client *)

(** Every way a call can go: the source read or not, the POST answered or
    not, the answer read or not. *)
Ltac cloudinary_cases w imageUri :=
  run_upload;
  destruct (startsWith imageUri "data:") eqn:Edata;
  [ destruct (network w (GET imageUri)) as [r0|e0] eqn:Eget;
    [ destruct (blob r0) as [b0|e1] eqn:Eblob | ] | ];
  cbn [app];
  try match goal with
      | |- context [network w (POST ?f)] =>
          destruct (network w (POST f)) as [r'|e'] eqn:Epost;
          [ destruct (ok r') eqn:Eok;
            [ destruct (json r') as [j|ej] eqn:Ejson
            | destruct (text r') as [t|et] eqn:Etext ] | ]
      end;
  cbn [fst snd negb].



(** X7.  Whatever goes wrong, the call throws an [Error] whose message
    begins with [Failed to upload image to Cloudinary: ]; it never lets
    another thrown value through. *)
Theorem cloudinary_failure_wrapped
    (w : World) (imageUri fileName : string) (e : exn) :
  result_of (uploadImageToCloudinary w imageUri fileName) = Throw e ->
  exists reason, e = Error ("Failed to upload image to Cloudinary: " ++ reason) None.
Proof.
  cloudinary_cases w imageUri; intros H; try discriminate H;
    injection H as <-; eexists; reflexivity.
Qed.

Lemma cloudinary_failure_wrapped_witness :
  result_of (uploadImageToCloudinary
               (Scenario.cloudinary_answering
                  (Scenario.broken_response 200 "OK"))
               "data:image/gif;base64,R0lGODlh" "cat.gif")
  = Throw (Error "Failed to upload image to Cloudinary: Network request failed" None)
  /\ exists reason,
      Error "Failed to upload image to Cloudinary: Network request failed" None
      = Error ("Failed to upload image to Cloudinary: " ++ reason) None.
Proof.
  assert (H : result_of (uploadImageToCloudinary
                           (Scenario.cloudinary_answering
                              (Scenario.broken_response 200 "OK"))
                           "data:image/gif;base64,R0lGODlh" "cat.gif")
              = Throw (Error "Failed to upload image to Cloudinary: Network request failed"
                         None))
    by (vm_compute; reflexivity).
  split; [exact H |].
  exact (cloudinary_failure_wrapped _ _ _ _ H).
Defined.

(** X8.  The call sends at most one POST and never retries; the only thing
    it ever fetches is a [data:] source, before the POST; and when that
    source cannot be fetched or read, nothing is posted. *)
Theorem cloudinary_request_discipline (w : World) (imageUri fileName : string) :
  let sent := requests_of (uploadImageToCloudinary w imageUri fileName) in
  (List.length (filter (fun r => String.eqb (method r) "POST") sent) <= 1)%nat
  /\ (forall req, In req sent ->
        (req = GET imageUri /\ startsWith imageUri "data:" = true)
        \/ exists fd, req = POST fd)
  /\ ((exists e, network w (GET imageUri) = Throw e)
      \/ (exists r e, network w (GET imageUri) = Ok r /\ blob r = Throw e) ->
      startsWith imageUri "data:" = true ->
      sent = [GET imageUri]).
Proof.
  cbv zeta.
  cloudinary_cases w imageUri; (split; [|split]);
    try (cbn; lia);
    try (intros req Hin; cbn [In] in Hin;
         repeat match goal with
                | H : _ \/ _ |- _ => destruct H as [H | H]
                | H : False |- _ => elim H
                end; subst req; (now left) || (right; now eauto));
    try (intros _ H; discriminate H);
    try reflexivity;
    intros [(e & He) | (r & e & Hr & He)] _; congruence.
Qed.

Lemma cloudinary_request_discipline_witness :
  ((exists r e,
       network (Scenario.cloudinary_answering (Scenario.broken_response 200 "OK"))
         (GET "data:image/gif;base64,R0lGODlh") = Ok r
       /\ blob r = Throw e)
   /\ startsWith "data:image/gif;base64,R0lGODlh" "data:" = true)
  /\ requests_of (uploadImageToCloudinary
                    (Scenario.cloudinary_answering (Scenario.broken_response 200 "OK"))
                    "data:image/gif;base64,R0lGODlh" "cat.gif")
     = [GET "data:image/gif;base64,R0lGODlh"].
Proof.
  assert (H : exists r e,
             network (Scenario.cloudinary_answering (Scenario.broken_response 200 "OK"))
               (GET "data:image/gif;base64,R0lGODlh") = Ok r
             /\ blob r = Throw e).
  { eexists _, _. split; reflexivity. }
  split; [split; [exact H | reflexivity] |].
  exact (proj2 (proj2 (cloudinary_request_discipline
                         (Scenario.cloudinary_answering (Scenario.broken_response 200 "OK"))
                         "data:image/gif;base64,R0lGODlh" "cat.gif"))
           (or_intror H) eq_refl).
Defined.

(** The first piece of a split: the text before the first separator. *)
Lemma split_first_piece (sep : ascii) (s : string) :
  exists stem rest,
    first (split sep s) = VString stem
    /\ s = stem ++ rest
    /\ every (not_char sep) stem = true
    /\ (rest = "" \/ exists rest', rest = String sep rest').
Proof.
  induction s as [|c s (stem & rest & Hfirst & Hs & Hstem & Hrest)].
  - exists "", "". repeat split. now left.
  - simpl. destruct (Ascii.eqb_spec c sep) as [->|Hc].
    + exists "", (String sep s). repeat split. right. now exists s.
    + destruct (split sep s) as [|x xs] eqn:E; [discriminate Hfirst |].
      injection Hfirst as ->.
      exists (String c stem), rest. simpl. rewrite <- Hs.
      repeat split; try assumption.
      unfold not_char at 1. apply andb_true_iff. split; [|exact Hstem].
      now apply negb_true_iff, Ascii.eqb_neq.
Qed.

(** X9.  Every POST the call sends goes to the fixed upload endpoint, asks
    for JSON, and carries exactly four fields in this order: [file],
    [upload_preset] (the configured preset), [folder] ([uploads]) and
    [public_id], which is the clock reading, an underscore and the part of
    the file name before its first dot. *)
Theorem cloudinary_form_fields
    (w : World) (imageUri fileName : string) (req : Request) :
  In req (requests_of (uploadImageToCloudinary w imageUri fileName)) ->
  method req = "POST" ->
  url req = "https://api.cloudinary.com/v1_1/your-cloud-name/image/upload"
  /\ headers req = [("Accept", "application/json")]
  /\ exists file stem rest,
      body req
      = Some [("file", file);
              ("upload_preset", FormString "your-upload-preset");
              ("folder", FormString "uploads");
              ("public_id", FormString (number_toString (now w) ++ "_" ++ stem))]
      /\ fileName = stem ++ rest
      /\ every (not_char ".") stem = true
      /\ (rest = "" \/ exists rest', rest = "." ++ rest').
Proof.
  intros Hin Hpost. revert Hin.
  assert (Hget : forall u, req <> GET u) by (intros u ->; discriminate Hpost).
  cloudinary_cases w imageUri; cbn [In]; intros Hin;
    repeat match goal with
           | H : _ \/ _ |- _ => destruct H as [H | H]
           | H : False |- _ => elim H
           | H : GET _ = req |- _ => now elim (Hget _ (eq_sym H))
           | H : POST _ = req |- _ => subst req
           end;
    destruct (split_first_piece "." fileName)
      as (stem & rest & Hfirst & Hs & Hstem & Hrest);
    (split; [reflexivity | split; [reflexivity |]]);
    eexists _, stem, rest; rewrite Hfirst;
    (split; [reflexivity | split; [exact Hs | split; [exact Hstem | exact Hrest]]]).
Qed.

Lemma cloudinary_form_fields_witness :
  In (POST [("file", FormFile "file:///tmp/cat.final.png" "image/png" "cat.final.png");
            ("upload_preset", FormString "your-upload-preset");
            ("folder", FormString "uploads");
            ("public_id", FormString "1700000000000_cat")])
     (requests_of (uploadImageToCloudinary
                     (Scenario.cloudinary_answering (Scenario.response 200 "OK" "{}"))
                     "file:///tmp/cat.final.png" "cat.final.png"))
  /\ url (POST [("file", FormFile "file:///tmp/cat.final.png" "image/png" "cat.final.png");
                ("upload_preset", FormString "your-upload-preset");
                ("folder", FormString "uploads");
                ("public_id", FormString "1700000000000_cat")])
     = "https://api.cloudinary.com/v1_1/your-cloud-name/image/upload".
Proof.
  assert (Hin : In (POST [("file", FormFile "file:///tmp/cat.final.png" "image/png"
                                     "cat.final.png");
                          ("upload_preset", FormString "your-upload-preset");
                          ("folder", FormString "uploads");
                          ("public_id", FormString "1700000000000_cat")])
                  (requests_of (uploadImageToCloudinary
                     (Scenario.cloudinary_answering (Scenario.response 200 "OK" "{}"))
                     "file:///tmp/cat.final.png" "cat.final.png"))).
  { vm_compute. left. reflexivity. }
  split; [exact Hin |].
  exact (proj1 (cloudinary_form_fields _ _ _ _ Hin eq_refl)).
Defined.

(** X10.  The reason given in the thrown message is the message of the
    first failure: of the POST itself when the network throws, of the JSON
    parser when a 200-299 answer cannot be parsed, of the fetch or the
    blob read of a [data:] source; and it is [Unknown error] when what was
    thrown is not an [Error]. *)
Theorem cloudinary_failure_message_kept
    (w : World) (imageUri fileName : string) (e : exn) :
  ((exists req,
       In req (requests_of (uploadImageToCloudinary w imageUri fileName))
       /\ method req = "POST"
       /\ (network w req = Throw e
           \/ exists r, network w req = Ok r /\ ok r = true /\ json r = Throw e))
   \/ (startsWith imageUri "data:" = true
       /\ (network w (GET imageUri) = Throw e
           \/ exists r, network w (GET imageUri) = Ok r /\ blob r = Throw e))) ->
  result_of (uploadImageToCloudinary w imageUri fileName)
  = Throw (Error ("Failed to upload image to Cloudinary: " ++ message_or_unknown e) None).
Proof.
  intros [(req & Hin & Hpost & Hfail) | (Hdata & Hfail)].
  - revert Hin.
    assert (Hget : forall u, req <> GET u) by (intros u ->; discriminate Hpost).
    cloudinary_cases w imageUri; cbn [In]; intros Hin;
      repeat match goal with
             | H : _ \/ _ |- _ => destruct H as [H | H]
             | H : False |- _ => elim H
             | H : GET _ = req |- _ => now elim (Hget _ (eq_sym H))
             | H : POST _ = req |- _ => subst req
             | H : exists _, _ |- _ => destruct H as (? & H)
             | H : _ /\ _ |- _ => destruct H as [? ?]
             end;
      congruence.
  - cloudinary_cases w imageUri; try discriminate Hdata;
      repeat match goal with
             | H : _ \/ _ |- _ => destruct H as [H | H]
             | H : exists _, _ |- _ => destruct H as (? & H)
             | H : _ /\ _ |- _ => destruct H as [? ?]
             end;
      congruence.
Qed.

Lemma cloudinary_failure_message_kept_witness :
  (startsWith "data:image/gif;base64,R0lGODlh" "data:" = true
   /\ exists r,
       network (Scenario.cloudinary_answering (Scenario.broken_response 200 "OK"))
         (GET "data:image/gif;base64,R0lGODlh") = Ok r
       /\ blob r = Throw (Error "Network request failed" None))
  /\ result_of (uploadImageToCloudinary
                  (Scenario.cloudinary_answering (Scenario.broken_response 200 "OK"))
                  "data:image/gif;base64,R0lGODlh" "cat.gif")
     = Throw (Error "Failed to upload image to Cloudinary: Network request failed" None).
Proof.
  assert (H : startsWith "data:image/gif;base64,R0lGODlh" "data:" = true
              /\ exists r,
                  network (Scenario.cloudinary_answering (Scenario.broken_response 200 "OK"))
                    (GET "data:image/gif;base64,R0lGODlh") = Ok r
                  /\ blob r = Throw (Error "Network request failed" None)).
  { split; [reflexivity |]. eexists. split; reflexivity. }
  split; [exact H |].
  exact (cloudinary_failure_message_kept _ _ _ _
           (or_intror (conj (proj1 H) (or_intror (proj2 H))))).
Defined.

(** ** The Firebase upload client *)

Ltac firebase_cases w imageUri :=
  run_upload; unfold FirebaseUpload.ref;
  destruct (startsWith imageUri "data:");
  (destruct (FirebaseUpload.network w (GET imageUri)) as [r0|e0] eqn:Eget;
   [ destruct (blob r0) as [b0|e1] eqn:Eblob;
     [ match goal with
       | |- context [FirebaseUpload.uploadBytes w ?path b0] =>
           destruct (FirebaseUpload.uploadBytes w path b0) as [p0|e2] eqn:Eput;
           [ destruct (FirebaseUpload.getDownloadURL w p0) as [u0|e3] eqn:Eurl | ]
       end | ] | ]);
  cbn [fst snd app].

(** X11.  Whatever the source reference is, a [data:] URL or not, and
    however the call ends, it sends exactly one network request of its own:
    the fetch of the source. *)
Theorem firebase_fetches_source_once
    (w : FirebaseUpload.World) (imageUri fileName : string) :
  requests_of (FirebaseUpload.uploadImageToFirebase w imageUri fileName)
  = [GET imageUri].
Proof. firebase_cases w imageUri; reflexivity. Qed.

(** X12.  The call returns a URL exactly when the source is fetched, its
    blob is read, the blob is written under [images/<clock>_<fileName>] and
    the download URL of the written object is obtained; the URL returned is
    that download URL. *)
Theorem firebase_success_iff
    (w : FirebaseUpload.World) (imageUri fileName downloadURL : string) :
  result_of (FirebaseUpload.uploadImageToFirebase w imageUri fileName) = Ok downloadURL
  <-> exists r b written,
        FirebaseUpload.network w (GET imageUri) = Ok r
        /\ blob r = Ok b
        /\ FirebaseUpload.uploadBytes w
             ("images/" ++ number_toString (FirebaseUpload.now w) ++ "_" ++ fileName) b
           = Ok written
        /\ FirebaseUpload.getDownloadURL w written = Ok downloadURL.
Proof.
  firebase_cases w imageUri; split;
    try (intros H; discriminate H);
    try (intros (r & b & p & H1 & H2 & H3 & H4); congruence);
    intros [= <-]; now eauto 8.
Qed.

(** ** The upload screen *)

(** X13.  After [handleImageUpload], however the upload ended, the
    [uploading] flag is off, the source has been fetched once, and exactly
    one alert has been shown: [Success] when a record was put first in the
    list, and otherwise the fixed text [Failed to upload image. Please try
    again.], with the list as it was; the cause of a failure is never
    shown. *)
Theorem screen_upload_outcome
    (w : FirebaseUpload.World) (c : UploadScreen.Clock) (uri fileName : string)
    (s : Screen.State) :
  let s' := Screen.handleImageUpload w c uri fileName s in
  Screen.uploading s' = false
  /\ Screen.dragActive s' = Screen.dragActive s
  /\ Screen.requests s' = (Screen.requests s ++ [GET uri])%list
  /\ Screen.uploadedImages s'
     = UploadScreen.handleImageUpload w c uri fileName (Screen.uploadedImages s)
  /\ ((exists downloadURL,
          result_of (FirebaseUpload.uploadImageToFirebase w uri fileName) = Ok downloadURL
          /\ Screen.alerts s'
             = (Screen.alerts s ++ [("Success", "Image uploaded successfully!")])%list
          /\ List.length (Screen.uploadedImages s')
             = S (List.length (Screen.uploadedImages s)))
      \/ (exists e,
          result_of (FirebaseUpload.uploadImageToFirebase w uri fileName) = Throw e
          /\ Screen.alerts s'
             = (Screen.alerts s
                  ++ [("Error", "Failed to upload image. Please try again.")])%list
          /\ Screen.uploadedImages s' = Screen.uploadedImages s)).
Proof.
  cbv zeta. unfold Screen.handleImageUpload, UploadScreen.handleImageUpload.
  firebase_cases w uri; cbn;
    (repeat split; try reflexivity);
    first [ left; eexists; now repeat split
          | right; eexists; now repeat split ].
Qed.

Lemma removeImage_filter_true (a : string) (l : list UploadScreen.UploadedImage) :
  Forall (fun img => negb (UploadScreen.id img =? a) = true) l
  <-> Forall (fun img => UploadScreen.id img <> a) l.
Proof.
  split; intros H; eapply Forall_impl; try exact H; intros img Himg.
  - now apply negb_true_iff, String.eqb_neq in Himg.
  - now apply negb_true_iff, String.eqb_neq.
Qed.

Lemma filter_comm {A} (f g : A -> bool) (l : list A) :
  filter f (filter g l) = filter g (filter f l).
Proof.
  induction l as [|x l IH]; [reflexivity |]. simpl.
  destruct (f x) eqn:Ef, (g x) eqn:Eg; simpl; rewrite ?Ef, ?Eg, IH; reflexivity.
Qed.

(** X14.  Removing by id: no record with that id is left; removing twice
    is removing once; two removals can be done in either order; and the
    list is unchanged exactly when no record had the id. *)
Theorem removeImage_algebra (a b : string) (l : list UploadScreen.UploadedImage) :
  Forall (fun img => UploadScreen.id img <> a) (UploadScreen.removeImage a l)
  /\ UploadScreen.removeImage a (UploadScreen.removeImage a l)
     = UploadScreen.removeImage a l
  /\ UploadScreen.removeImage a (UploadScreen.removeImage b l)
     = UploadScreen.removeImage b (UploadScreen.removeImage a l)
  /\ (UploadScreen.removeImage a l = l
      <-> Forall (fun img => UploadScreen.id img <> a) l).
Proof.
  unfold UploadScreen.removeImage.
  assert (Hall : Forall (fun img => UploadScreen.id img <> a)
                   (filter (fun img => negb (UploadScreen.id img =? a)) l)).
  { apply removeImage_filter_true, Forall_forall.
    intros img Hin. now apply filter_In in Hin. }
  split; [exact Hall | split; [|split]].
  - apply filter_keeps_all. now apply removeImage_filter_true.
  - apply filter_comm.
  - split.
    + intros E. rewrite <- E. exact Hall.
    + intros H. apply filter_keeps_all. now apply removeImage_filter_true.
Qed.

(** What [handleImageUpload] does to each part of the state. *)
Lemma screen_upload_fields
    (w : FirebaseUpload.World) (c : UploadScreen.Clock) (uri fileName : string)
    (s : Screen.State) :
  Screen.uploading (Screen.handleImageUpload w c uri fileName s) = false
  /\ Screen.dragActive (Screen.handleImageUpload w c uri fileName s)
     = Screen.dragActive s
  /\ Screen.requests (Screen.handleImageUpload w c uri fileName s)
     = (Screen.requests s ++ [GET uri])%list
  /\ Screen.uploadedImages (Screen.handleImageUpload w c uri fileName s)
     = UploadScreen.handleImageUpload w c uri fileName (Screen.uploadedImages s)
  /\ Screen.alerts (Screen.handleImageUpload w c uri fileName s)
     = (Screen.alerts s
          ++ [match result_of (FirebaseUpload.uploadImageToFirebase w uri fileName) with
              | Ok _ => ("Success", "Image uploaded successfully!")
              | Throw _ => ("Error", "Failed to upload image. Please try again.")
              end])%list.
Proof.
  unfold Screen.handleImageUpload, UploadScreen.handleImageUpload.
  firebase_cases w uri; cbn; repeat split; reflexivity.
Qed.

(** X15.  Ids are clock readings, so two uploads that read the same
    millisecond get the same id: both records are in the list, and removing
    that id removes them both. *)
Theorem same_reading_removed_together
    (w1 w2 : FirebaseUpload.World) (c1 c2 : UploadScreen.Clock)
    (uri1 name1 uri2 name2 url1 url2 : string)
    (prev : list UploadScreen.UploadedImage) :
  result_of (FirebaseUpload.uploadImageToFirebase w1 uri1 name1) = Ok url1 ->
  result_of (FirebaseUpload.uploadImageToFirebase w2 uri2 name2) = Ok url2 ->
  UploadScreen.Date_now c1 = UploadScreen.Date_now c2 ->
  Forall (fun img => UploadScreen.id img <> number_toString (UploadScreen.Date_now c1))
    prev ->
  List.length
    (UploadScreen.handleImageUpload w2 c2 uri2 name2
       (UploadScreen.handleImageUpload w1 c1 uri1 name1 prev))
  = S (S (List.length prev))
  /\ UploadScreen.removeImage (number_toString (UploadScreen.Date_now c1))
       (UploadScreen.handleImageUpload w2 c2 uri2 name2
          (UploadScreen.handleImageUpload w1 c1 uri1 name1 prev))
     = prev.
Proof.
  intros H1 H2 Hsame Hfresh.
  rewrite (handleImageUpload_success w1 c1 uri1 name1 prev url1 H1).
  rewrite (handleImageUpload_success w2 c2 uri2 name2 _ url2 H2).
  split; [reflexivity |].
  unfold UploadScreen.removeImage. cbn [filter UploadScreen.id].
  rewrite <- Hsame, String.eqb_refl. cbn [negb].
  apply filter_keeps_all. now apply removeImage_filter_true.
Qed.

Lemma same_reading_removed_together_witness :
  result_of (FirebaseUpload.uploadImageToFirebase Scenario.firebase_accepting
               "file:///tmp/cat.jpg" "cat.jpg")
  = Ok "https://firebasestorage.googleapis.com/v0/b/your-project.appspot.com/o/images/1700000000000_cat.jpg"
  /\ result_of (FirebaseUpload.uploadImageToFirebase Scenario.firebase_accepting
                  "file:///tmp/owl.jpg" "owl.jpg")
     = Ok "https://firebasestorage.googleapis.com/v0/b/your-project.appspot.com/o/images/1700000000000_owl.jpg"
  /\ UploadScreen.removeImage "1700000000500"
       (UploadScreen.handleImageUpload Scenario.firebase_accepting Scenario.screen_clock
          "file:///tmp/owl.jpg" "owl.jpg"
          (UploadScreen.handleImageUpload Scenario.firebase_accepting Scenario.screen_clock
             "file:///tmp/cat.jpg" "cat.jpg" [Scenario.earlier_upload]))
     = [Scenario.earlier_upload].
Proof.
  assert (H1 : result_of (FirebaseUpload.uploadImageToFirebase Scenario.firebase_accepting
                            "file:///tmp/cat.jpg" "cat.jpg")
               = Ok "https://firebasestorage.googleapis.com/v0/b/your-project.appspot.com/o/images/1700000000000_cat.jpg")
    by (vm_compute; reflexivity).
  assert (H2 : result_of (FirebaseUpload.uploadImageToFirebase Scenario.firebase_accepting
                            "file:///tmp/owl.jpg" "owl.jpg")
               = Ok "https://firebasestorage.googleapis.com/v0/b/your-project.appspot.com/o/images/1700000000000_owl.jpg")
    by (vm_compute; reflexivity).
  assert (Hfresh : Forall (fun img => UploadScreen.id img
                             <> number_toString (UploadScreen.Date_now Scenario.screen_clock))
                     [Scenario.earlier_upload])
    by (constructor; [vm_compute; discriminate | constructor]).
  split; [exact H1 | split; [exact H2 |]].
  exact (proj2 (same_reading_removed_together _ _ Scenario.screen_clock Scenario.screen_clock
                  _ _ _ _ _ _ _ H1 H2 eq_refl Hfresh)).
Defined.

(** X16.  [pickImage]: a cancelled pick, or a pick without assets, changes
    nothing and sends nothing; a picker that throws only shows [Failed to
    pick image]; otherwise only the first asset is uploaded, under its own
    file name, or under [image_<clock>.jpg] when that name is missing or
    empty. *)
Theorem pickImage_outcomes
    (now : Z) (w : FirebaseUpload.World) (c : UploadScreen.Clock) (s : Screen.State) :
  (forall result,
      Screen.canceled result = true \/ Screen.assets result = [] ->
      Screen.pickImage (Ok result) now w c s = s)
  /\ (forall e,
      Screen.pickImage (Throw e) now w c s
      = Screen.Alert_alert "Error" "Failed to pick image" s)
  /\ (forall asset others,
      Screen.pickImage
        (Ok {| Screen.canceled := false; Screen.assets := asset :: others |}) now w c s
      = Screen.handleImageUpload w c (Screen.asset_uri asset)
          match Screen.asset_fileName asset with
          | Some "" | None => "image_" ++ number_toString now ++ ".jpg"
          | Some fileName => fileName
          end s).
Proof.
  split; [|split].
  - intros result [H | H]; unfold Screen.pickImage; rewrite H; [reflexivity |].
    now destruct (Screen.canceled result).
  - reflexivity.
  - intros asset others. unfold Screen.pickImage, Screen.fileName_value. cbn.
    destruct (Screen.asset_fileName asset) as [[|x n]|]; reflexivity.
Qed.

Lemma pickImage_outcomes_witness :
  (Screen.canceled {| Screen.canceled := true; Screen.assets := [] |} = true
   \/ Screen.assets {| Screen.canceled := true; Screen.assets := [] |} = [])
  /\ Screen.pickImage (Ok {| Screen.canceled := true; Screen.assets := [] |})
       1700000000250 Scenario.firebase_accepting Scenario.screen_clock Screen.initial
     = Screen.initial.
Proof.
  split; [now left |].
  apply (proj1 (pickImage_outcomes 1700000000250 Scenario.firebase_accepting
                  Scenario.screen_clock Screen.initial)).
  now left.
Defined.

(** X17.  [handleDrop]: off the web it does nothing at all; on the web it
    switches the drag highlight off, looks at the first dropped file only,
    uploads it under its own name when its type begins with [image/] and it
    can be read, and shows [Please select an image file] without uploading
    anything when its type is something else, whatever the other files
    are; so a drop adds at most one record. *)
Theorem handleDrop_outcomes
    (w : FirebaseUpload.World) (c : UploadScreen.Clock) (s : Screen.State) :
  (forall os files, os <> Screen.web -> Screen.handleDrop os files w c s = s)
  /\ (forall files,
      Screen.dragActive (Screen.handleDrop Screen.web files w c s) = false
      /\ (List.length (Screen.uploadedImages (Screen.handleDrop Screen.web files w c s))
          <= S (List.length (Screen.uploadedImages s)))%nat)
  /\ Screen.handleDrop Screen.web [] w c s = Screen.setDragActive false s
  /\ (forall file others,
      Screen.handleDrop Screen.web (file :: others) w c s
      = Screen.handleDrop Screen.web [file] w c s)
  /\ (forall file dataUrl,
      startsWith (Screen.file_type file) "image/" = true ->
      Screen.file_dataUrl file = Some dataUrl ->
      Screen.handleDrop Screen.web [file] w c s
      = Screen.handleImageUpload w c dataUrl (Screen.file_name file)
          (Screen.setDragActive false s))
  /\ (forall file,
      startsWith (Screen.file_type file) "image/" = false ->
      Screen.handleDrop Screen.web [file] w c s
      = Screen.Alert_alert "Error" "Please select an image file"
          (Screen.setDragActive false s)).
Proof.
  split; [|split; [|split; [|split; [|split]]]].
  - intros os files Hos. destruct os; [now elim Hos | reflexivity | reflexivity].
  - intros files. unfold Screen.handleDrop.
    destruct files as [|file others]; [cbn; split; [reflexivity | lia] |].
    destruct (startsWith (Screen.file_type file) "image/");
      [destruct (Screen.file_dataUrl file) as [dataUrl|] |];
      try (cbn; split; [reflexivity | lia]).
    destruct (screen_upload_fields w c dataUrl (Screen.file_name file)
                (Screen.setDragActive false s)) as (_ & Hdrag & _ & Hlist & _).
    rewrite Hdrag, Hlist. split; [reflexivity |].
    unfold UploadScreen.handleImageUpload.
    destruct (result_of _); cbn; lia.
  - reflexivity.
  - reflexivity.
  - intros file dataUrl Htype Hread. unfold Screen.handleDrop. now rewrite Htype, Hread.
  - intros file Htype. unfold Screen.handleDrop. now rewrite Htype.
Qed.

Lemma handleDrop_outcomes_witness :
  startsWith
    (Screen.file_type
       {| Screen.file_type := "application/pdf"; Screen.file_name := "notes.pdf";
          Screen.file_dataUrl := Some "data:application/pdf;base64,JVBERi0=" |})
    "image/" = false
  /\ Screen.alerts
       (Screen.handleDrop Screen.web
          [{| Screen.file_type := "application/pdf"; Screen.file_name := "notes.pdf";
              Screen.file_dataUrl := Some "data:application/pdf;base64,JVBERi0=" |}]
          Scenario.firebase_accepting Scenario.screen_clock Screen.initial)
     = [("Error", "Please select an image file")].
Proof.
  split; [reflexivity |].
  rewrite (proj2 (proj2 (proj2 (proj2 (proj2
             (handleDrop_outcomes Scenario.firebase_accepting Scenario.screen_clock
                Screen.initial)))))
             {| Screen.file_type := "application/pdf"; Screen.file_name := "notes.pdf";
                Screen.file_dataUrl := Some "data:application/pdf;base64,JVBERi0=" |}
             eq_refl).
  reflexivity.
Defined.

Lemma successes_of_alerts (s : Screen.State) (a : string * string) (l : list (string * string)) :
  Screen.alerts s = (l ++ [a])%list ->
  Screen.successes s
  = (List.length (filter (fun x => String.eqb (fst x) "Success") l)
     + if String.eqb (fst a) "Success" then 1 else 0)%nat.
Proof.
  intros H. unfold Screen.successes. rewrite H, filter_app, length_app. simpl.
  now destruct (fst a =? "Success").
Qed.

(** What every handler keeps: the flag is off, and records, [Success]
    alerts and requests are counted in that order. *)
Lemma step_keeps_counts (s : Screen.State) (e : Screen.Event) :
  Screen.uploading s = false
  /\ (List.length (Screen.uploadedImages s) <= Screen.successes s)%nat
  /\ (Screen.successes s <= List.length (Screen.requests s))%nat ->
  Screen.uploading (Screen.step s e) = false
  /\ (List.length (Screen.uploadedImages (Screen.step s e))
      <= Screen.successes (Screen.step s e))%nat
  /\ (Screen.successes (Screen.step s e)
      <= List.length (Screen.requests (Screen.step s e)))%nat.
Proof.
  intros (Hflag & Hlist & Hsent).
  assert (Hupload : forall w c uri fileName s0,
             Screen.uploading s0 = false
             /\ (List.length (Screen.uploadedImages s0) <= Screen.successes s0)%nat
             /\ (Screen.successes s0 <= List.length (Screen.requests s0))%nat ->
             Screen.uploading (Screen.handleImageUpload w c uri fileName s0) = false
             /\ (List.length (Screen.uploadedImages
                                (Screen.handleImageUpload w c uri fileName s0))
                 <= Screen.successes (Screen.handleImageUpload w c uri fileName s0))%nat
             /\ (Screen.successes (Screen.handleImageUpload w c uri fileName s0)
                 <= List.length (Screen.requests
                                   (Screen.handleImageUpload w c uri fileName s0)))%nat).
  { intros w c uri fileName s0 (H1 & H2 & H3).
    destruct (screen_upload_fields w c uri fileName s0) as (F1 & _ & F3 & F4 & F5).
    rewrite F1, F3, F4, (successes_of_alerts _ _ _ F5), length_app.
    unfold UploadScreen.handleImageUpload.
    fold (Screen.successes s0).
    destruct (result_of (FirebaseUpload.uploadImageToFirebase w uri fileName));
      cbn; repeat split; lia. }
  destruct e as [w c uri fileName | id' | picker now w c | os | os | os files w c];
    cbn [Screen.step].
  - now apply Hupload.
  - unfold Screen.removeImage. cbn. repeat split; try assumption.
    etransitivity; [apply filter_length_le | exact Hlist].
  - unfold Screen.pickImage.
    destruct picker as [result|e].
    + destruct (Screen.canceled result); cbn [negb]; [now repeat split |].
      destruct (Screen.assets result); [now repeat split | now apply Hupload].
    + unfold Screen.successes in *. cbn. rewrite filter_app, length_app. cbn.
      repeat split; try assumption; lia.
  - destruct os; cbn; now repeat split.
  - destruct os; cbn; now repeat split.
  - unfold Screen.handleDrop. destruct os; [|now repeat split | now repeat split].
    destruct files as [|file others]; [cbn; now repeat split |].
    destruct (startsWith (Screen.file_type file) "image/").
    + destruct (Screen.file_dataUrl file); [|cbn; now repeat split].
      apply Hupload. cbn. now repeat split.
    + unfold Screen.successes in *. cbn. rewrite filter_app, length_app. cbn.
      repeat split; try assumption; lia.
Qed.

(** X18.  Whatever uploads, removals, picks and drops the screen goes
    through from its initial state, between two of them the [uploading]
    flag is off, the list holds no more records than [Success] alerts were
    shown, and no more [Success] alerts were shown than sources were
    fetched. *)
Theorem screen_counts (events : list Screen.Event) :
  Screen.uploading (Screen.run events Screen.initial) = false
  /\ (List.length (Screen.uploadedImages (Screen.run events Screen.initial))
      <= Screen.successes (Screen.run events Screen.initial))%nat
  /\ (Screen.successes (Screen.run events Screen.initial)
      <= List.length (Screen.requests (Screen.run events Screen.initial)))%nat.
Proof.
  unfold Screen.run.
  assert (H : forall s,
             Screen.uploading s = false
             /\ (List.length (Screen.uploadedImages s) <= Screen.successes s)%nat
             /\ (Screen.successes s <= List.length (Screen.requests s))%nat ->
             Screen.uploading (fold_left Screen.step events s) = false
             /\ (List.length (Screen.uploadedImages (fold_left Screen.step events s))
                 <= Screen.successes (fold_left Screen.step events s))%nat
             /\ (Screen.successes (fold_left Screen.step events s)
                 <= List.length (Screen.requests (fold_left Screen.step events s)))%nat).
  { induction events as [|e events IH]; intros s Hs; [exact Hs |].
    cbn [fold_left]. apply IH. now apply step_keeps_counts. }
  apply H. cbn. repeat split; lia.
Qed.

(** ** The technical guide: validation and the image context *)

Lemma array_includes_In (a : list string) (x : string) :
  Guide.array_includes a x = true <-> In x a.
Proof.
  unfold Guide.array_includes. rewrite existsb_exists. split.
  - intros (y & Hy & E). apply String.eqb_eq in E. now subst.
  - intros H. exists x. split; [exact H | apply String.eqb_refl].
Qed.

(** X19.  [validateFile] accepts a file exactly when its size is at most
    5242880 bytes, a file of exactly 5 MB included, and its type is one of
    [image/jpeg], [image/png], [image/gif], [image/webp]; a file that is too
    large is refused for its size whatever its type, and only a file that
    is small enough is refused for its type. *)
Theorem validateFile_accepts_iff (file : Guide.File) :
  (Guide.validateFile file = Ok tt
   <-> (Guide.size file <= 5242880)%Z
       /\ In (Guide.type file) ["image/jpeg"; "image/png"; "image/gif"; "image/webp"])
  /\ ((Guide.size file > 5242880)%Z
      <-> Guide.validateFile file = Throw (Error "File size must be less than 5MB" None))
  /\ ((Guide.size file <= 5242880)%Z
      /\ ~ In (Guide.type file) ["image/jpeg"; "image/png"; "image/gif"; "image/webp"]
      <-> Guide.validateFile file
          = Throw (Error "Only JPEG, PNG, GIF, and WebP images are allowed" None)).
Proof.
  unfold Guide.validateFile.
  change Guide.maxSize with 5242880%Z.
  change ["image/jpeg"; "image/png"; "image/gif"; "image/webp"] with Guide.allowedTypes.
  destruct (Z.gtb_spec (Guide.size file) 5242880) as [Hbig | Hsmall].
  - split; [|split]; split.
    + intros H. discriminate H.
    + intros [H _]. lia.
    + reflexivity.
    + lia.
    + intros [H _]. lia.
    + intros H. discriminate H.
  - destruct (Guide.array_includes Guide.allowedTypes (Guide.type file)) eqn:E; cbn [negb].
    + apply array_includes_In in E. split; [|split]; split.
      * now split.
      * reflexivity.
      * lia.
      * intros H. discriminate H.
      * intros [_ H]. now elim H.
      * intros H. discriminate H.
    + assert (Hno : ~ In (Guide.type file) Guide.allowedTypes).
      { intros H. apply array_includes_In in H. congruence. }
      split; [|split]; split.
      * intros H. discriminate H.
      * intros [_ H]. now elim Hno.
      * lia.
      * intros H. discriminate H.
      * reflexivity.
      * now split.
Qed.

Lemma accepted_call_in_sync (st : ImageContext.State) (op : Guide.Call) :
  Guide.accepted op = true -> Guide.in_sync (Guide.call st op).
Proof.
  destruct op as [c [[]|e] url fileName | [[]|e] id']; try discriminate; reflexivity.
Qed.

(** X20.  After any non-empty series of [addImage] and [removeImage] calls
    whose writes are all accepted, from any state, the stored entry is the
    list in memory. *)
Theorem accepted_calls_in_sync (calls : list Guide.Call) (st : ImageContext.State) :
  calls <> [] ->
  Forall (fun op => Guide.accepted op = true) calls ->
  Guide.in_sync (fold_left Guide.call calls st).
Proof.
  destruct calls as [|op calls _] using rev_ind; [congruence |].
  intros _ H. apply Forall_app in H as [_ H]. inversion H; subst.
  rewrite fold_left_app. cbn [fold_left]. now apply accepted_call_in_sync.
Qed.

Lemma accepted_calls_in_sync_witness :
  [Guide.AddImage Scenario.context_clock (Ok tt)
     "https://firebasestorage.googleapis.com/v0/b/your-project.appspot.com/o/images/1700000000000_cat.jpg"
     "cat.jpg";
   Guide.RemoveImage (Ok tt) "1600000000000"] <> []
  /\ Forall (fun op => Guide.accepted op = true)
       [Guide.AddImage Scenario.context_clock (Ok tt)
          "https://firebasestorage.googleapis.com/v0/b/your-project.appspot.com/o/images/1700000000000_cat.jpg"
          "cat.jpg";
        Guide.RemoveImage (Ok tt) "1600000000000"]
  /\ Guide.in_sync
       (fold_left Guide.call
          [Guide.AddImage Scenario.context_clock (Ok tt)
             "https://firebasestorage.googleapis.com/v0/b/your-project.appspot.com/o/images/1700000000000_cat.jpg"
             "cat.jpg";
           Guide.RemoveImage (Ok tt) "1600000000000"]
          Scenario.one_image).
Proof.
  assert (H : Forall (fun op => Guide.accepted op = true)
                [Guide.AddImage Scenario.context_clock (Ok tt)
                   "https://firebasestorage.googleapis.com/v0/b/your-project.appspot.com/o/images/1700000000000_cat.jpg"
                   "cat.jpg";
                 Guide.RemoveImage (Ok tt) "1600000000000"])
    by (repeat constructor).
  split; [discriminate | split; [exact H |]].
  apply accepted_calls_in_sync; [discriminate | exact H].
Defined.

(** X21.  A refused write is not silent and not undone: [addImage] throws
    what the storage threw, the list in memory has the new record all the
    same, and the stored entry is left as it was, so that a state that was
    in step with its stored entry no longer is; [removeImage] likewise
    throws and leaves the stored entry as it was. *)
Theorem refused_write
    (c : ImageContext.Clock) (e : exn) (url fileName id' : string)
    (st : ImageContext.State) :
  Guide.in_sync st ->
  snd (ImageContext.addImage c (Throw e) url fileName st) = Throw e
  /\ ImageContext.images (fst (ImageContext.addImage c (Throw e) url fileName st))
     = (ImageContext.images st
          ++ [{| ImageContext.id := number_toString (ImageContext.Date_now c);
                 ImageContext.url := url;
                 ImageContext.uploadedAt := ImageContext.new_Date c;
                 ImageContext.fileName := fileName |}])%list
  /\ ImageContext.uploaded_images (fst (ImageContext.addImage c (Throw e) url fileName st))
     = ImageContext.uploaded_images st
  /\ ~ Guide.in_sync (fst (ImageContext.addImage c (Throw e) url fileName st))
  /\ snd (ImageContext.removeImage (Throw e) id' st) = Throw e
  /\ ImageContext.uploaded_images (fst (ImageContext.removeImage (Throw e) id' st))
     = ImageContext.uploaded_images st.
Proof.
  intros Hsync. repeat split.
  unfold Guide.in_sync in *. cbn. rewrite Hsync. intros [= H].
  apply (f_equal (@List.length _)) in H. rewrite length_app in H. cbn in H. lia.
Qed.

Lemma refused_write_witness :
  Guide.in_sync Scenario.one_image
  /\ ~ Guide.in_sync
         (fst (ImageContext.addImage Scenario.context_clock
                 (Throw (Error "QuotaExceededError" None))
                 "https://firebasestorage.googleapis.com/v0/b/your-project.appspot.com/o/images/1700000000000_cat.jpg"
                 "cat.jpg" Scenario.one_image)).
Proof.
  assert (H : Guide.in_sync Scenario.one_image) by reflexivity.
  split; [exact H |].
  exact (proj1 (proj2 (proj2 (proj2
           (refused_write Scenario.context_clock (Error "QuotaExceededError" None)
              "https://firebasestorage.googleapis.com/v0/b/your-project.appspot.com/o/images/1700000000000_cat.jpg"
              "cat.jpg" "1600000000000" Scenario.one_image H))))).
Defined.

(** X22.  [loadImages] never throws and always ends with [loading] off and
    the stored entry untouched; the list in memory is replaced only when a
    non-empty text was read and parsed, by what the parser returned, and is
    otherwise left as it was: when the read fails, when nothing or the
    empty text is stored, and when the text cannot be parsed. *)
Theorem loadImages_never_throws
    (getItem : Result (option string))
    (JSON_parse : string -> Result (list ImageContext.ImageData)) (h : Guide.Hook) :
  let after := fst (Guide.loadImages getItem JSON_parse h) in
  snd (Guide.loadImages getItem JSON_parse h) = Ok tt
  /\ Guide.loading after = false
  /\ ImageContext.uploaded_images (Guide.state after)
     = ImageContext.uploaded_images (Guide.state h)
  /\ ((exists text parsed,
          getItem = Ok (Some text) /\ text <> "" /\ JSON_parse text = Ok parsed
          /\ ImageContext.images (Guide.state after) = parsed)
      \/ ((forall text parsed,
              getItem = Ok (Some text) -> text <> "" -> JSON_parse text <> Ok parsed)
          /\ ImageContext.images (Guide.state after)
             = ImageContext.images (Guide.state h))).
Proof.
  cbv zeta. unfold Guide.loadImages.
  destruct getItem as [[text|]|e]; cbn [truthy toString].
  - destruct (String.eqb_spec text "") as [->|Hne]; cbn [negb].
    + cbn. repeat split. right. split; [|reflexivity].
      intros text parsed [= <-] H. now elim H.
    + destruct (JSON_parse text) as [parsed|e] eqn:E; cbn; repeat split.
      * left. now exists text, parsed.
      * right. split; [|reflexivity]. intros text' parsed [= <-] _. congruence.
  - cbn. repeat split. right. split; [|reflexivity]. intros text parsed H. discriminate H.
  - cbn. repeat split. right. split; [|reflexivity]. intros text parsed H. discriminate H.
Qed.

(** ** Names of uploaded objects *)

Lemma number_toString_inj (n m : Z) : number_toString n = number_toString m -> n = m.
Proof.
  unfold number_toString. intros H.
  assert (Hnil : forall z, Z.to_int z <> Decimal.Pos Decimal.Nil
                           /\ Z.to_int z <> Decimal.Neg Decimal.Nil).
  { intros [|p|p]; simpl; split; try discriminate; intros [= E];
      now apply DecimalPos.Unsigned.to_uint_nonnil in E. }
  apply DecimalZ.to_int_inj.
  assert (E : NilZero.int_of_string (NilZero.string_of_int (Z.to_int n))
              = NilZero.int_of_string (NilZero.string_of_int (Z.to_int m)))
    by now rewrite H.
  rewrite !NilZero.isi in E by apply Hnil. now injection E.
Qed.

(** Where two texts meet at their first separator, they can be told
    apart. *)
Lemma append_separator_inj (sep : ascii) (a a' b b' : string) :
  every (not_char sep) a = true ->
  every (not_char sep) a' = true ->
  a ++ String sep b = a' ++ String sep b' ->
  a = a' /\ b = b'.
Proof.
  revert a'. induction a as [|x a IH]; intros [|x' a'] Ha Ha' E; simpl in *.
  - injection E as ->. now split.
  - injection E as <- _. unfold not_char in Ha'. now rewrite Ascii.eqb_refl in Ha'.
  - injection E as -> _. unfold not_char in Ha. now rewrite Ascii.eqb_refl in Ha.
  - injection E as -> E.
    apply andb_true_iff in Ha as [_ Ha]. apply andb_true_iff in Ha' as [_ Ha'].
    destruct (IH a' Ha Ha' E) as [-> ->]. now split.
Qed.

Lemma underscore_free_number (n : Z) : every (not_char "_") (number_toString n) = true.
Proof.
  apply every_number. intros c H. unfold numeric, is_digit in H.
  unfold not_char. apply negb_true_iff, Ascii.eqb_neq. intros ->.
  discriminate H.
Qed.

(** X23.  The object a successful Firebase upload writes is the one at
    [Naming.storagePath], and this path determines the clock reading and the
    file name: two uploads write to the same object only if they read the
    same millisecond and have the same file name. *)
Theorem storage_path_determines_upload :
  (forall w imageUri fileName downloadURL,
      result_of (FirebaseUpload.uploadImageToFirebase w imageUri fileName) = Ok downloadURL ->
      exists b written,
        FirebaseUpload.uploadBytes w
          (Naming.storagePath (FirebaseUpload.now w) fileName) b = Ok written
        /\ FirebaseUpload.getDownloadURL w written = Ok downloadURL)
  /\ (forall now1 fileName1 now2 fileName2,
      Naming.storagePath now1 fileName1 = Naming.storagePath now2 fileName2 ->
      now1 = now2 /\ fileName1 = fileName2).
Proof.
  split.
  - intros w imageUri fileName downloadURL. unfold Naming.storagePath.
    firebase_cases w imageUri; intros H; try discriminate H;
      injection H as <-; now eauto.
  - intros now1 fileName1 now2 fileName2 H. unfold Naming.storagePath in H.
    apply append_cancel_l in H.
    apply append_separator_inj in H as [Hn ->]; try apply underscore_free_number.
    split; [now apply number_toString_inj | reflexivity].
Qed.

Lemma storage_path_determines_upload_witness :
  Naming.storagePath 1700000000000 "cat.jpg" = Naming.storagePath 1700000000000 "cat.jpg"
  /\ (1700000000000%Z = 1700000000000%Z /\ "cat.jpg" = "cat.jpg").
Proof.
  split; [reflexivity |].
  exact (proj2 storage_path_determines_upload 1700000000000%Z "cat.jpg"
           1700000000000%Z "cat.jpg" eq_refl).
Defined.

Lemma stem_dot_free (fileName : string) :
  every (not_char ".") (Naming.stem fileName) = true.
Proof.
  unfold Naming.stem.
  destruct (split_first_piece "." fileName) as (stem & rest & -> & _ & H & _).
  exact H.
Qed.

(** X24.  The [public_id] sent to Cloudinary is [Naming.publicId]: the
    clock reading, an underscore and the file name up to its first dot.
    Two uploads get the same public id exactly when they read the same
    millisecond and their file names agree up to the first dot; what
    follows the first dot, the extension included, plays no part. *)
Theorem public_id_determines_upload :
  (forall w imageUri fileName req,
      In req (requests_of (uploadImageToCloudinary w imageUri fileName)) ->
      method req = "POST" ->
      exists fd,
        body req = Some fd
        /\ getAll fd "public_id" = [FormString (Naming.publicId (now w) fileName)])
  /\ (forall now1 fileName1 now2 fileName2,
      Naming.publicId now1 fileName1 = Naming.publicId now2 fileName2
      <-> now1 = now2 /\ Naming.stem fileName1 = Naming.stem fileName2)
  /\ (forall base rest,
      every (not_char ".") base = true ->
      Naming.stem (base ++ "." ++ rest) = base).
Proof.
  split; [|split].
  - intros w imageUri fileName req Hin Hpost. revert Hin.
    assert (Hget : forall u, req <> GET u) by (intros u ->; discriminate Hpost).
    cloudinary_cases w imageUri; cbn [In]; intros Hin;
      repeat match goal with
             | H : _ \/ _ |- _ => destruct H as [H | H]
             | H : False |- _ => elim H
             | H : GET _ = req |- _ => now elim (Hget _ (eq_sym H))
             | H : POST _ = req |- _ => subst req
             end;
      eexists; split; reflexivity.
  - intros now1 fileName1 now2 fileName2. unfold Naming.publicId. split.
    + intros H.
      apply append_separator_inj in H as [Hn Hs]; try apply underscore_free_number.
      split; [now apply number_toString_inj | exact Hs].
    + now intros [-> ->].
  - intros base rest Hbase. unfold Naming.stem.
    change ("." ++ rest) with (String "." rest).
    now rewrite split_append.
Qed.

Lemma public_id_determines_upload_witness :
  every (not_char ".") "cat" = true
  /\ Naming.publicId 1700000000000 ("cat" ++ "." ++ "png")
     = Naming.publicId 1700000000000 ("cat" ++ "." ++ "final.jpg").
Proof.
  split; [reflexivity |].
  apply (proj1 (proj2 public_id_determines_upload)).
  split; [reflexivity |].
  now rewrite !(proj2 (proj2 public_id_determines_upload) "cat" _ eq_refl).
Defined.

Lemma split_last_piece (sep : ascii) (s : string) :
  exists last, pop (split sep s) = VString last /\ every (not_char sep) last = true.
Proof.
  induction s as [|c s (last & Hpop & Hlast)]; [now exists "" |].
  simpl. destruct (Ascii.eqb_spec c sep) as [->|Hc].
  - exists last. split; [|exact Hlast].
    destruct (split_cons sep s) as (x & xs & E). rewrite E in Hpop |- *. exact Hpop.
  - destruct (split sep s) as [|x [|y ys]] eqn:E.
    + discriminate Hpop.
    + injection Hpop as ->. exists (String c last). split; [reflexivity |].
      simpl. rewrite Hlast. unfold not_char.
      apply Ascii.eqb_neq in Hc. now rewrite Hc.
    + exists last. split; [exact Hpop | exact Hlast].
Qed.

(** X25.  The MIME type attached to a file URI is always [image/] followed
    by a non-empty subtype without dots, and that subtype is never [jpg]:
    it is [jpeg] when the file name ends in [.jpg], in a dot, or is empty,
    and otherwise the text after the last dot of the name (the whole name
    when it has no dot). *)
Theorem mimeType_shape (fileName : string) :
  exists last subtype,
    pop (split "." fileName) = VString last
    /\ every (not_char ".") last = true
    /\ subtype = (if (last =? "") || (last =? "jpg") then "jpeg" else last)
    /\ mimeType fileName = "image/" ++ subtype
    /\ subtype <> ""
    /\ subtype <> "jpg"
    /\ every (not_char ".") subtype = true.
Proof.
  destruct (split_last_piece "." fileName) as (last & Hpop & Hlast).
  exists last. eexists. split; [exact Hpop | split; [exact Hlast | split; [reflexivity |]]].
  unfold mimeType, fileExtension, or. rewrite Hpop. cbn [truthy toString].
  destruct (String.eqb_spec last "") as [->|Hne]; cbn [negb orb toString].
  - repeat split; discriminate.
  - destruct (String.eqb_spec last "jpg") as [->|Hjpg].
    + repeat split; discriminate.
    + repeat split; assumption.
Qed.

Lemma includes_one_char (c : ascii) (s : string) :
  every (not_char c) s = true -> includes s (String c "") = false.
Proof.
  induction s as [|x s IH]; simpl; [reflexivity |].
  unfold not_char at 1. intros H. apply andb_true_iff in H as [Hx Hs].
  apply negb_true_iff, Ascii.eqb_neq in Hx.
  destruct (ascii_dec c x) as [<-|_]; [now elim Hx | now apply IH].
Qed.

Lemma segment_char_number (x : number) :
  every Alphabet.segment_char (print_number x) = true.
Proof.
  apply every_printed. intros c H. unfold Alphabet.segment_char. now rewrite H.
Qed.

(** X26.  Whatever the options, what the builder puts between
    [/image/upload/] and the slash before the asset id is one non-empty
    path segment made of digits, lower-case letters, the capitals [I] and
    [N] of a printed [Infinity] or [NaN], and the marks [-], [+], [.], [_]
    and [,] only: no slash, space, question mark or other mark comes from
    the options. *)
Theorem built_url_segment (publicId : string) (o : Options) :
  getOptimizedImageUrl publicId o
  = "https://res.cloudinary.com/your-cloud-name/image/upload/"
      ++ join "," (directives o) ++ "/" ++ publicId
  /\ join "," (directives o) <> ""
  /\ every Alphabet.segment_char (join "," (directives o)) = true
  /\ includes (join "," (directives o)) "/" = false.
Proof.
  assert (Hseg : every Alphabet.segment_char (join "," (directives o)) = true).
  { rewrite directives_ordered.
    apply every_join; [reflexivity |].
    unfold ordered_directives. cbv zeta.
    apply Forall_app; split; [|apply Forall_app; split;
      [|apply Forall_app; split; [|apply Forall_app; split]]].
    - apply Forall_if_singleton. intros _.
      destruct (width o); simpl; [apply segment_char_number | reflexivity].
    - apply Forall_if_singleton. intros _.
      destruct (height o); simpl; [apply segment_char_number | reflexivity].
    - apply Forall_if_singleton. intros _.
      now destruct (with_default CFill (crop o)).
    - apply Forall_if_singleton. intros _.
      destruct (with_default QAuto (quality o)); simpl;
        [reflexivity | apply segment_char_number].
    - constructor; [|constructor]. now destruct (with_default FAuto (format o)). }
  split; [|split; [|split]].
  - unfold getOptimizedImageUrl. rewrite transformationString_join.
    now rewrite append_assoc.
  - rewrite directives_ordered. unfold ordered_directives. cbv zeta.
    destruct (truthy (number_value (width o))), (truthy (number_value (height o))),
      (truthy (quality_value (with_default QAuto (quality o))));
      cbn [orb app]; simpl; discriminate.
  - exact Hseg.
  - apply includes_one_char.
    eapply every_weaken; [|exact Hseg].
    intros c H. unfold not_char. apply negb_true_iff, Ascii.eqb_neq.
    intros ->. discriminate H.
Qed.

(** ** The guide's builder and the service's *)

Lemma falsy_number (n : option number) :
  truthy (number_value n) = false
  <-> n = None \/ exists x, n = Some x /\ zero_or_NaN x.
Proof.
  destruct n as [x|]; simpl.
  - split.
    + intros H. right. exists x. split; [reflexivity |].
      destruct x as [|negative| |]; try discriminate H;
        [now left | right; now exists negative].
    + intros [H | (x' & [= <-] & [-> | [negative ->]])];
        [discriminate H | reflexivity | reflexivity].
  - split; [now left | reflexivity].
Qed.

Lemma truthy_quality (q : option Quality) :
  truthy (quality_value (with_default QAuto q)) = true
  <-> forall x, q = Some (QNumber x) -> ~ zero_or_NaN x.
Proof.
  destruct q as [[|x]|]; simpl.
  - split; [discriminate | reflexivity].
  - split.
    + intros H x' [= <-] [-> | [negative ->]]; discriminate H.
    + intros H. specialize (H x eq_refl).
      destruct x as [|negative| |]; try reflexivity; elim H;
        [now left | right; now exists negative].
  - split; [discriminate | reflexivity].
Qed.

Lemma guide_format_value (o : GuideCloudinary.Options) :
  format_value (with_default FAuto (format (GuideCloudinary.for_service o)))
  = GuideCloudinary.format_value
      (with_default GuideCloudinary.FAuto (GuideCloudinary.format o)).
Proof. unfold GuideCloudinary.for_service. cbn. now destruct (GuideCloudinary.format o) as [[]|]. Qed.

Lemma truthy_guide_format (f : GuideCloudinary.Format) :
  truthy (GuideCloudinary.format_value f) = true.
Proof. now destruct f. Qed.

(** X28.  The builder printed in the technical guide and the builder of
    the service return the same URL for the same asset id and options
    exactly when width and height are each absent or falsy ([0], [-0] or
    [NaN]) and quality is not a falsy number: with a usable dimension the
    service adds [c_fill] and the guide does not, and for a falsy quality
    the guide emits [q_0] or [q_NaN] and the service nothing. *)
Theorem guide_builder_agrees_iff (publicId : string) (o : GuideCloudinary.Options) :
  GuideCloudinary.getOptimizedImageUrl publicId o
  = getOptimizedImageUrl publicId (GuideCloudinary.for_service o)
  <-> (GuideCloudinary.width o = None
       \/ exists x, GuideCloudinary.width o = Some x /\ zero_or_NaN x)
      /\ (GuideCloudinary.height o = None
          \/ exists x, GuideCloudinary.height o = Some x /\ zero_or_NaN x)
      /\ (forall x, GuideCloudinary.quality o = Some (QNumber x) -> ~ zero_or_NaN x).
Proof.
  rewrite <- !falsy_number, <- truthy_quality.
  unfold GuideCloudinary.getOptimizedImageUrl, getOptimizedImageUrl,
    transformationString.
  rewrite transformations_nonempty.
  unfold transformations, push. rewrite guide_format_value.
  rewrite truthy_and, truthy_crop, !truthy_or, truthy_guide_format.
  change (width (GuideCloudinary.for_service o)) with (GuideCloudinary.width o).
  change (height (GuideCloudinary.for_service o)) with (GuideCloudinary.height o).
  change (quality (GuideCloudinary.for_service o)) with (GuideCloudinary.quality o).
  change (crop (GuideCloudinary.for_service o)) with (@None Crop).
  cbn [with_default crop_value toString andb push app].
  set (D := join "," (dimensions (number_value (GuideCloudinary.width o))
                        (number_value (GuideCloudinary.height o)))).
  set (Q := "q_" ++ toString (quality_value
                                (with_default QAuto (GuideCloudinary.quality o)))).
  set (F := "f_" ++ toString (GuideCloudinary.format_value
                                (with_default GuideCloudinary.FAuto
                                   (GuideCloudinary.format o)))).
  destruct (truthy (number_value (GuideCloudinary.width o))) eqn:Ew,
           (truthy (number_value (GuideCloudinary.height o))) eqn:Eh,
           (truthy (quality_value (with_default QAuto (GuideCloudinary.quality o))))
             eqn:Eq;
    cbn [orb app];
    first
      [ solve [ split; [intros _; repeat split; reflexivity | intros _; reflexivity] ]
      | split;
        [ intros H; exfalso;
          repeat apply append_cancel_l in H;
          rewrite ?(join_cons "," D) in H by discriminate;
          rewrite ?append_assoc in H;
          try apply append_cancel_l in H;
          subst Q; cbn in H; discriminate H
        | intros (H1 & H2 & H3); discriminate ] ].
Qed.

(** ** The guide's uploader component *)

(** X29.  After [handleFileUpload], however the call went, [uploading] is
    off and [progress] is 0.  When the upload returns a URL, that URL is
    handed to [onUploadComplete] and nothing else is.  When the upload
    throws, nothing is handed over and exactly one alert, [Upload failed],
    is shown, whose text begins with [Failed to upload image to
    Cloudinary: ]: for a failed upload the [Unknown error] fallback of the
    component is never what is shown. *)
Theorem guide_upload_outcome
    (env : GuideUploader.Env) (file : GuideUploader.File) (s : GuideUploader.State) :
  let s' := GuideUploader.handleFileUpload env file s in
  GuideUploader.uploading s' = false
  /\ GuideUploader.progress s' = 0%Z
  /\ (forall imageUri url,
      GuideUploader.source env file = Ok imageUri ->
      result_of (uploadImageToCloudinary (GuideUploader.world env) imageUri
                   (GuideUploader.name file)) = Ok url ->
      GuideUploader.reported s' = (GuideUploader.reported s ++ [url])%list)
  /\ (forall imageUri e,
      GuideUploader.source env file = Ok imageUri ->
      result_of (uploadImageToCloudinary (GuideUploader.world env) imageUri
                   (GuideUploader.name file)) = Throw e ->
      GuideUploader.reported s' = GuideUploader.reported s
      /\ exists reason,
          GuideUploader.alerts s'
          = (GuideUploader.alerts s
               ++ [("Upload failed",
                    String.append "Failed to upload image to Cloudinary: " reason)])%list).
Proof.
  cbv zeta. unfold GuideUploader.handleFileUpload.
  split; [|split; [|split]].
  - destruct (GuideUploader.source env file) as [imageUri|e]; [|reflexivity].
    destruct (result_of _) as [url|e]; [|reflexivity].
    cbn. now destruct (GuideUploader.onUploadComplete env url).
  - destruct (GuideUploader.source env file) as [imageUri|e]; [|reflexivity].
    destruct (result_of _) as [url|e]; [|reflexivity].
    cbn. now destruct (GuideUploader.onUploadComplete env url).
  - intros imageUri url -> ->. cbn.
    now destruct (GuideUploader.onUploadComplete env url).
  - intros imageUri e -> H. rewrite H. cbn. split; [reflexivity |].
    revert H. generalize (GuideUploader.world env) (GuideUploader.name file).
    intros w fileName.
    cloudinary_cases w imageUri; intros H; try discriminate H;
      injection H as <-; eexists; reflexivity.
Qed.

Lemma guide_upload_outcome_witness :
  (GuideUploader.source
     {| GuideUploader.world :=
          Scenario.cloudinary_answering (Scenario.response 401 "Unauthorized" "{}");
        GuideUploader.createObjectURL :=
          Ok "blob:http://localhost/0b1c2d3e";
        GuideUploader.onUploadComplete := fun _ => Ok tt |}
     {| GuideUploader.uri := None; GuideUploader.name := "cat.png" |}
   = Ok "blob:http://localhost/0b1c2d3e"
   /\ result_of (uploadImageToCloudinary
                   (Scenario.cloudinary_answering
                      (Scenario.response 401 "Unauthorized" "{}"))
                   "blob:http://localhost/0b1c2d3e" "cat.png")
      = Throw (Error "Failed to upload image to Cloudinary: Upload failed: 401 Unauthorized"
                 None))
  /\ GuideUploader.reported
       (GuideUploader.handleFileUpload
          {| GuideUploader.world :=
               Scenario.cloudinary_answering (Scenario.response 401 "Unauthorized" "{}");
             GuideUploader.createObjectURL :=
               Ok "blob:http://localhost/0b1c2d3e";
             GuideUploader.onUploadComplete := fun _ => Ok tt |}
          {| GuideUploader.uri := None; GuideUploader.name := "cat.png" |}
          {| GuideUploader.uploading := false; GuideUploader.progress := 0;
             GuideUploader.alerts := []; GuideUploader.reported := [] |})
     = [].
Proof.
  assert (H1 : GuideUploader.source
                 {| GuideUploader.world :=
                      Scenario.cloudinary_answering
                        (Scenario.response 401 "Unauthorized" "{}");
                    GuideUploader.createObjectURL :=
                      Ok "blob:http://localhost/0b1c2d3e";
                    GuideUploader.onUploadComplete := fun _ => Ok tt |}
                 {| GuideUploader.uri := None; GuideUploader.name := "cat.png" |}
               = Ok "blob:http://localhost/0b1c2d3e") by reflexivity.
  assert (H2 : result_of (uploadImageToCloudinary
                            (Scenario.cloudinary_answering
                               (Scenario.response 401 "Unauthorized" "{}"))
                            "blob:http://localhost/0b1c2d3e" "cat.png")
               = Throw (Error "Failed to upload image to Cloudinary: Upload failed: 401 Unauthorized"
                          None)) by (vm_compute; reflexivity).
  split; [split; [exact H1 | exact H2] |].
  exact (proj1 (proj2 (proj2 (proj2 (guide_upload_outcome _ _
           {| GuideUploader.uploading := false; GuideUploader.progress := 0;
              GuideUploader.alerts := []; GuideUploader.reported := [] |})))
           _ _ H1 H2)).
Defined.
